(** * Liberty Unleashed server directory (lusd): the registry and its admission path

    A shallow embedding of [cmd/lusd/main.go].  The registration store
    ([ServerList]), its three operations ([Report], [GetActive] and the body
    of [cleanupLoop]), the [/report.php] handler behind [securityMiddleware],
    and [loadConfig] are transcribed from the Go source; the theorems at the
    end of the file relate them to the written specification. *)

From Stdlib Require Import ZArith Lia Ascii.
From stdpp Require Import base numbers option list gmap strings sorting.

Local Open Scope Z_scope.

(** ** Package [time]

    A [time.Time] is represented by its offset from the Unix epoch in
    nanoseconds, a [time.Duration] by its [int64] count of nanoseconds.
    [Add] is exact and [Unix] rounds down to whole seconds, which is what
    the library does for every instant the wall clock can report. *)

Module time.
Definition Time : Type := Z.
Definition Duration : Type := Z.

Definition Nanosecond : Duration := 1.
Definition Second : Duration := 1000000000 * Nanosecond.
Definition Minute : Duration := 60 * Second.

Definition Add (t : Time) (d : Duration) : Time := t + d.
Definition Unix (t : Time) : Z := t `div` 1000000000.
End time.

(** Two's-complement [int64]: the value an arithmetic result has once it is
    stored back in 64 bits. *)
Definition wrap64 (z : Z) : Z := (z + 2 ^ 63) `mod` 2 ^ 64 - 2 ^ 63.

(** Unary minus on a [time.Duration] (an [int64]). *)
Definition neg64 (d : time.Duration) : time.Duration := wrap64 (- d).

Definition int64_range (z : Z) : Prop := - 2 ^ 63 <= z < 2 ^ 63.

(** ** Data model *)

(** [type Config struct] *)
Record Config : Type := mkConfig {
  Port : Z;
  AllowedUserAgent : string;
  StaleTimeout : time.Duration;
  Blacklist : gmap string bool;
  OfficialServers : list string;
  LogFile : string;
  LogEnabled : bool;
}.

(** [type ServerList struct]: the mutex is the atomicity of each operation
    below; [Entries] maps an address to the Unix second of its last report. *)
Record ServerList : Type := mkServerList {
  Entries : gmap string Z;
  SLConfig : Config;
}.

(** [NewServerList]: an empty mapping; the goroutine it starts is
    [cleanupLoop], whose ticks are the [cleanupTick] transitions below. *)
Definition NewServerList (cfg : Config) : ServerList :=
  {| Entries := ∅; SLConfig := cfg |}.

(** ** [fmt.Sprintf("%s:%d", ip, port)] *)

Definition digit_char (d : Z) : ascii :=
  Ascii.ascii_of_N (Z.to_N (48 + d)).

(** Decimal digits of a non-negative number, most significant first;
    [fuel] bounds the number of digits. *)
Fixpoint digits_go (fuel : nat) (n : Z) (acc : string) : string :=
  match fuel with
  | O => acc
  | S fuel' =>
      let acc' := String (digit_char (n `mod` 10)) acc in
      if n <? 10 then acc' else digits_go fuel' (n `div` 10) acc'
  end.

(** [%d] of an [int]: at most 19 digits, preceded by [-] when negative. *)
Definition itoa (n : Z) : string :=
  if n <? 0 then String "-"%char (digits_go 20 (- n) "")
  else digits_go 20 n "".

Definition host_port (ip : string) (port : Z) : string :=
  ip +:+ ":" +:+ itoa port.

(** ** [ServerList.Report] *)

Definition Report (s : ServerList) (ip : string) (port : Z) (now : time.Time)
  : ServerList :=
  let addr := host_port ip port in
  {| Entries := <[addr := time.Unix now]> (Entries s);
     SLConfig := SLConfig s |}.

(** ** The staleness cutoff

    [time.Now().Add(-s.Config.StaleTimeout).Unix()], the expression shared by
    [GetActive] and [cleanupLoop]. *)
Definition cutoff (cfg : Config) (now : time.Time) : Z :=
  time.Unix (time.Add now (neg64 (StaleTimeout cfg))).

(** ** [ServerList.GetActive] *)

(** First loop: [for addr, ts := range s.Entries], run over the entries in
    the order [it] in which the map iterator yields them. *)
Definition collect_reported (cut : Z) (it : list (string * Z))
    (activeMap : gmap string bool) : gmap string bool :=
  foldl (λ acc '(addr, ts), if bool_decide (cut <= ts) then <[addr := true]> acc else acc)
        activeMap it.

(** Second loop: [for _, addr := range s.Config.OfficialServers]. *)
Definition collect_official (official : list string)
    (activeMap : gmap string bool) : gmap string bool :=
  foldl (λ acc addr, <[addr := true]> acc) activeMap official.

(** Third loop: [for addr := range activeMap { list = append(list, addr) }]. *)
Definition keys_in_order (it : list (string * bool)) : list string :=
  foldl (λ l '(addr, _), l ++ [addr]) [] it.

(** [sort.Strings]: ascending in Go's [<] on strings, the bytewise
    lexicographic order [String.le]. *)
Definition sort_Strings (l : list string) : list string :=
  merge_sort String.le l.

(** [GetActive] for given iteration orders of the two [range] loops over
    maps: [it1] for [s.Entries], [it2] for [activeMap]. *)
Definition activeMap_of (s : ServerList) (now : time.Time)
    (it1 : list (string * Z)) : gmap string bool :=
  collect_official (OfficialServers (SLConfig s))
    (collect_reported (cutoff (SLConfig s) now) it1 ∅).

Definition GetActive_iter (it2 : list (string * bool)) : list string :=
  sort_Strings (keys_in_order it2).

(** [GetActive], iterating both maps in [map_to_list] order. *)
Definition GetActive (s : ServerList) (now : time.Time) : list string :=
  GetActive_iter (map_to_list (activeMap_of s now (map_to_list (Entries s)))).

(** ** [ServerList.cleanupLoop]: the body of one tick

    The ticker fires once a minute; a tick reads the clock and runs the
    loop below under the lock.  The line logged for each removed entry is
    not part of the registry's state and is left out. *)

(** [for addr, ts := range s.Entries { if ts < cutoff { delete(...) } }],
    run over the entries in iteration order [it]. *)
Definition sweep_loop (cut : Z) (it : list (string * Z))
    (entries : gmap string Z) : gmap string Z :=
  foldl (λ m '(addr, ts), if bool_decide (ts < cut) then delete addr m else m)
        entries it.

Definition cleanupTick_iter (s : ServerList) (now : time.Time)
    (it : list (string * Z)) : ServerList :=
  {| Entries := sweep_loop (cutoff (SLConfig s) now) it (Entries s);
     SLConfig := SLConfig s |}.

Definition cleanupTick (s : ServerList) (now : time.Time) : ServerList :=
  cleanupTick_iter s now (map_to_list (Entries s)).

(** ** Library functions of the admission path

    [strconv.Atoi], [net.SplitHostPort] and [strings.Contains] are written
    out after the Go library; [net.ParseIP] is a parameter (see
    [Section Admission]). *)

Definition byte_of (c : ascii) : Z := Z.of_N (Ascii.N_of_ascii c).

Definition is_digit (c : ascii) : bool :=
  bool_decide (48 <= byte_of c <= 57).

Fixpoint parse_digits (s : string) (acc : Z) : option Z :=
  match s with
  | EmptyString => Some acc
  | String c s' =>
      if is_digit c then parse_digits s' (acc * 10 + (byte_of c - 48))
      else None
  end.

(** [strconv.Atoi]: an optional sign, then one or more decimal digits; a
    value outside [int] (64 bits) is an error. *)
Definition Atoi (s : string) : option Z :=
  let signed (neg : bool) (ds : string) : option Z :=
    match ds with
    | EmptyString => None
    | _ =>
        n ← parse_digits ds 0;
        let v := if neg then - n else n in
        if bool_decide (int64_range v) then Some v else None
    end in
  match s with
  | EmptyString => None
  | String c rest =>
      if Ascii.eqb c "-" then signed true rest
      else if Ascii.eqb c "+" then signed false rest
      else signed false s
  end.

Fixpoint IndexByte (s : string) (c : ascii) : option nat :=
  match s with
  | EmptyString => None
  | String a s' => if Ascii.eqb a c then Some O else S <$> IndexByte s' c
  end.

Fixpoint LastIndexByte (s : string) (c : ascii) : option nat :=
  match s with
  | EmptyString => None
  | String a s' =>
      match LastIndexByte s' c with
      | Some i => Some (S i)
      | None => if Ascii.eqb a c then Some O else None
      end
  end.

(** [s[i:j]] and [s[i:]] *)
Definition slice (s : string) (i j : nat) : string :=
  String.substring i (j - i) s.
Definition slice_from (s : string) (i : nat) : string :=
  String.substring i (String.length s - i) s.

(** [net.SplitHostPort]: [None] stands for a non-nil error. *)
Definition SplitHostPort (hostport : string) : option (string * string) :=
  match LastIndexByte hostport ":" with
  | None => None                                  (* missing port *)
  | Some i =>
      let bracketed :=
        match hostport with
        | String "[" _ =>
            match IndexByte hostport "]" with
            | None => None                        (* missing ']' *)
            | Some end_ =>
                if bool_decide (S end_ = String.length hostport) then None
                else if bool_decide (S end_ = i)
                     then Some (slice hostport 1 end_, 1%nat, S end_)
                else None                         (* too many colons / missing port *)
            end
        | _ =>
            let host := slice hostport 0 i in
            match IndexByte host ":" with
            | Some _ => None                      (* too many colons *)
            | None => Some (host, O, O)
            end
        end in
      '(host, j, k) ← bracketed;
      if bool_decide (is_Some (IndexByte (slice_from hostport j) "[")) then None
      else if bool_decide (is_Some (IndexByte (slice_from hostport k) "]")) then None
      else Some (host, slice_from hostport (S i))
  end.

Fixpoint has_prefix (s p : string) : bool :=
  match p, s with
  | EmptyString, _ => true
  | String b p', String a s' => Ascii.eqb a b && has_prefix s' p'
  | String _ _, EmptyString => false
  end.

(** [strings.Contains] *)
Fixpoint Contains (s substr : string) : bool :=
  has_prefix s substr ||
  match s with
  | EmptyString => false
  | String _ s' => Contains s' substr
  end.

(** [len(s)], in bytes *)
Definition len (s : string) : Z := Z.of_nat (String.length s).

(** [strconv.ParseBool] *)
Definition ParseBool (str : string) : option bool :=
  if bool_decide (str ∈ ["1"; "t"; "T"; "TRUE"; "true"; "True"]) then Some true
  else if bool_decide (str ∈ ["0"; "f"; "F"; "FALSE"; "false"; "False"]) then Some false
  else None.

Definition newline : string := String (Ascii.ascii_of_N 10) "".

(** [strings.Join] *)
Fixpoint Join (elems : list string) (sep : string) : string :=
  match elems with
  | [] => ""
  | [x] => x
  | x :: rest => x +:+ sep +:+ Join rest sep
  end.

(** ** The HTTP surface

    A request as the handlers see it: method, [User-Agent] header, the
    transport's [RemoteAddr], and the outcome of [r.ParseForm()] on the
    size-limited body ([None] for an error, otherwise the key/value pairs).
    A response is its status code and body; response headers play no part
    in the registry and are left out. *)
Record Request : Type := mkRequest {
  Method : string;
  UserAgent : string;
  RemoteAddr : string;
  ParseForm : option (list (string * string));
}.

Record Response : Type := mkResponse {
  StatusCode : Z;
  Body : string;
}.

Definition StatusOK : Z := 200.
Definition StatusBadRequest : Z := 400.
Definition StatusForbidden : Z := 403.
Definition StatusMethodNotAllowed : Z := 405.
Definition StatusTooManyRequests : Z := 429.

(** [http.Error(w, msg, code)] *)
Definition http_Error (msg : string) (code : Z) : Response :=
  {| StatusCode := code; Body := msg +:+ newline |}.

(** [w.WriteHeader(code)] with nothing written afterwards *)
Definition WriteHeader (code : Z) : Response :=
  {| StatusCode := code; Body := "" |}.

(** [r.FormValue(key)]: the first value for [key], or the empty string. *)
Fixpoint FormValue (form : list (string * string)) (key : string) : string :=
  match form with
  | [] => ""
  | (k, v) :: rest => if bool_decide (k = key) then v else FormValue rest key
  end.

(** State shared by the handlers in [main]: the registry and the rate
    limiter's map from client IP to the minutes of its recent requests. *)
Record App : Type := mkApp {
  servers : ServerList;
  rateLimitMap : gmap string (list Z);
}.

Definition maxRequestsPerMinute : Z := 60.

(** [checkRateLimit]; [/] on [int64] truncates, hence [Z.quot]. *)
Definition checkRateLimit (rl : gmap string (list Z)) (ip : string)
    (now : time.Time) : bool * gmap string (list Z) :=
  let minute := time.Unix now `quot` 60 in
  let append_now (m : gmap string (list Z)) :=
    <[ip := default [] (m !! ip) ++ [minute]]> m in
  match rl !! ip with
  | Some times =>
      let newTimes := filter (λ t, minute - 1 <= t) times in
      let rl' := <[ip := newTimes]> rl in
      let count := Z.of_nat (length (filter (λ t, t = minute) newTimes)) in
      if bool_decide (maxRequestsPerMinute <= count) then (false, rl')
      else (true, append_now rl')
  | None => (true, append_now rl)
  end.

(** A handler reads the clock at most once ([Report]); the middleware reads
    it once more in [checkRateLimit].  [t_rl] and [now] are those readings. *)
Definition Handler : Type := App → Request → time.Time → App * Response.

Definition securityMiddleware (next : Handler) (a : App) (r : Request)
    (t_rl now : time.Time) : App * Response :=
  match SplitHostPort (RemoteAddr r) with
  | None => (a, http_Error "Invalid request" StatusBadRequest)
  | Some (ip, _) =>
      let '(ok, rl') := checkRateLimit (rateLimitMap a) ip t_rl in
      let a' := {| servers := servers a; rateLimitMap := rl' |} in
      if ok then next a' r now
      else (a', http_Error "Rate limit exceeded" StatusTooManyRequests)
  end.

Section Admission.
(** [net.ParseIP]: [None] is the nil result.  Which literals the library
    accepts is immaterial to the handler, which only tests for nil. *)
Context (ParseIP : string → option (list Z)).

(** The closure registered for [/report.php]; [cfg] is the variable of
    [main] it captures.  The line it logs before calling [Report] is left
    out. *)
Definition report_php (cfg : Config) : Handler := λ a r now,
  if bool_decide (Method r ≠ "POST") then
    (a, http_Error "Method Not Allowed" StatusMethodNotAllowed)
  else if bool_decide (UserAgent r ≠ AllowedUserAgent cfg) then
    (a, http_Error "Forbidden" StatusForbidden)
  else
    match ParseForm r with
    | None => (a, http_Error "Bad Request" StatusBadRequest)
    | Some form =>
        let portStr := FormValue form "port" in
        if bool_decide (portStr = "") then
          (a, http_Error "Missing port parameter" StatusBadRequest)
        else
          match Atoi portStr with
          | None => (a, http_Error "Invalid port" StatusBadRequest)
          | Some port =>
              if bool_decide (port < 1024 ∨ port > 65535) then
                (a, http_Error "Invalid port" StatusBadRequest)
              else
                match SplitHostPort (RemoteAddr r) with
                | None => (a, WriteHeader StatusOK)
                | Some (ip, _) =>
                    if default false (Blacklist cfg !! ip) then
                      (a, WriteHeader StatusOK)   (* silent drop *)
                    else
                      match ParseIP ip with
                      | None => (a, http_Error "Invalid IP address" StatusBadRequest)
                      | Some _ =>
                          ({| servers := Report (servers a) ip port now;
                              rateLimitMap := rateLimitMap a |},
                           WriteHeader StatusOK)
                      end
                end
          end
    end.

(** [/report.php] as registered: the handler behind the middleware. *)
Definition report_endpoint (cfg : Config) (a : App) (r : Request)
    (t_rl now : time.Time) : App * Response :=
  securityMiddleware (report_php cfg) a r t_rl now.
End Admission.

(** The closure registered for [/servers.txt]. *)
Definition servers_txt : Handler := λ a r now,
  if bool_decide (Method r ≠ "GET") then
    (a, http_Error "Method Not Allowed" StatusMethodNotAllowed)
  else
    (a, {| StatusCode := StatusOK;
           Body := Join (GetActive (servers a) now) newline |}).

(** The closure registered for [/official.txt]. *)
Definition official_txt : Handler := λ a r now,
  if bool_decide (Method r ≠ "GET") then
    (a, http_Error "Method Not Allowed" StatusMethodNotAllowed)
  else
    (a, {| StatusCode := StatusOK;
           Body := Join (OfficialServers (SLConfig (servers a))) newline |}).

(** [main] up to the registration of the handlers. *)
Definition main_init (cfg : Config) : App :=
  {| servers := NewServerList cfg; rateLimitMap := ∅ |}.

(** ** Configuration loading

    [loadConfig] talks to the operating system.  The file system and the
    process environment are a record of query results; every call the
    function makes is recorded, in order, in a trace of [Event]s, so that
    "this variable was never read" is a statement about the trace. *)

(** [type jsonConfig struct] *)
Record jsonConfig : Type := mkJsonConfig {
  jPort : Z;
  jAllowedUserAgent : string;
  jStaleTimeout : string;
  jBlacklist : list string;
  jOfficialServers : list string;
  jLogFile : string;
  jLogEnabled : bool;
}.

Definition maxConfigFileSize : Z := 1024 * 1024 * 32.
Definition configFileMode : Z := 384.          (* 0600 *)

(** Outcome of [os.Stat]: the file's size, [os.IsNotExist], or another error. *)
Inductive StatResult : Type :=
  | StatInfo (size : Z)
  | StatNotExist
  | StatError.

Record OS : Type := mkOS {
  Stat : string → StatResult;
  ReadFile : string → option string;
  MkdirAll : string → Z → bool;                (* [true]: nil error *)
  WriteFile : string → string → Z → bool;      (* [true]: nil error *)
  Getenv : string → string;
}.

Inductive Event : Type :=
  | ELog (msg : string)
  | EStat (path : string)
  | EReadFile (path : string)
  | EMkdirAll (path : string) (perm : Z)
  | EWriteFile (path data : string) (perm : Z)
  | EGetenv (key : string).

(** A computation with a trace: its result and the events it performed. *)
Definition IO (A : Type) : Type := A * list Event.

Definition ret {A} (a : A) : IO A := (a, []).
Global Instance io_bind : MBind IO := λ A B k m,
  let '(a, t1) := m in let '(b, t2) := k a in (b, t1 ++ t2).

Definition result {A} (m : IO A) : A := m.1.
Definition trace {A} (m : IO A) : list Event := m.2.

Definition log_Printf (msg : string) : IO unit := (tt, [ELog msg]).
Definition os_Stat (os : OS) (path : string) : IO StatResult :=
  (Stat os path, [EStat path]).
Definition os_ReadFile (os : OS) (path : string) : IO (option string) :=
  (ReadFile os path, [EReadFile path]).
Definition os_MkdirAll (os : OS) (path : string) (perm : Z) : IO bool :=
  (MkdirAll os path perm, [EMkdirAll path perm]).
Definition os_WriteFile (os : OS) (path data : string) (perm : Z) : IO bool :=
  (WriteFile os path data perm, [EWriteFile path data perm]).
Definition os_Getenv (os : OS) (key : string) : IO string :=
  (Getenv os key, [EGetenv key]).

Definition with_Port (c : Config) (p : Z) : Config :=
  mkConfig p (AllowedUserAgent c) (StaleTimeout c) (Blacklist c)
           (OfficialServers c) (LogFile c) (LogEnabled c).
Definition with_AllowedUserAgent (c : Config) (ua : string) : Config :=
  mkConfig (Port c) ua (StaleTimeout c) (Blacklist c)
           (OfficialServers c) (LogFile c) (LogEnabled c).
Definition with_StaleTimeout (c : Config) (d : time.Duration) : Config :=
  mkConfig (Port c) (AllowedUserAgent c) d (Blacklist c)
           (OfficialServers c) (LogFile c) (LogEnabled c).
Definition with_Blacklist (c : Config) (b : gmap string bool) : Config :=
  mkConfig (Port c) (AllowedUserAgent c) (StaleTimeout c) b
           (OfficialServers c) (LogFile c) (LogEnabled c).
Definition with_OfficialServers (c : Config) (l : list string) : Config :=
  mkConfig (Port c) (AllowedUserAgent c) (StaleTimeout c) (Blacklist c)
           l (LogFile c) (LogEnabled c).
Definition with_LogFile (c : Config) (f : string) : Config :=
  mkConfig (Port c) (AllowedUserAgent c) (StaleTimeout c) (Blacklist c)
           (OfficialServers c) f (LogEnabled c).
Definition with_LogEnabled (c : Config) (b : bool) : Config :=
  mkConfig (Port c) (AllowedUserAgent c) (StaleTimeout c) (Blacklist c)
           (OfficialServers c) (LogFile c) b.

(** The literal [defaultCfg] of [loadConfig]. *)
Definition defaultCfg : Config :=
  {| Port := 80;
     AllowedUserAgent := "LU-Server/0.1";
     StaleTimeout := 10 * time.Minute;
     Blacklist := ∅;
     OfficialServers := [];
     LogFile := "lusd_server.log";
     LogEnabled := true |}.

Section LoadConfig.
(** Library functions whose results [loadConfig] only passes on or tests:
    [net.ParseIP], [filepath.Clean], [filepath.IsAbs], [filepath.Dir],
    [json.Unmarshal] into a [jsonConfig], [json.MarshalIndent] of one,
    [time.ParseDuration] and [strings.TrimSpace].  [None] is an error. *)
Context (ParseIP : string → option (list Z))
        (Clean : string → string)
        (IsAbs : string → bool)
        (Dir : string → string)
        (Unmarshal : string → option jsonConfig)
        (MarshalIndent : jsonConfig → option string)
        (ParseDuration : string → option time.Duration)
        (TrimSpace : string → string).

(** [secureReadFile]; [None] is a non-nil error. *)
Definition secureReadFile (os : OS) (path : string) (maxSize : Z)
  : IO (option string) :=
  let cleanPath := Clean path in
  if bool_decide (cleanPath ≠ path) then ret None
  else if IsAbs cleanPath && Contains cleanPath ".." then ret None
  else
    info ← os_Stat os cleanPath;
    match info with
    | StatInfo size =>
        if bool_decide (size > maxSize) then ret None
        else os_ReadFile os cleanPath
    | _ => ret None
    end.

(** [secureWriteFile]; [true] is a nil error. *)
Definition secureWriteFile (os : OS) (path data : string) (perm : Z)
  : IO bool :=
  let cleanPath := Clean path in
  if bool_decide (cleanPath ≠ path) then ret false
  else if Contains cleanPath ".." then ret false
  else
    made ← os_MkdirAll os (Dir cleanPath) 493;      (* 0755 *)
    if (made : bool) then os_WriteFile os cleanPath data perm else ret false.

(** [for _, ip := range jsonCfg.Blacklist] *)
Fixpoint load_blacklist (ips : list string) (bl : gmap string bool)
  : IO (gmap string bool) :=
  match ips with
  | [] => ret bl
  | ip :: rest =>
      let ip := TrimSpace ip in
      if bool_decide (ip = "") then load_blacklist rest bl
      else
        match ParseIP ip with
        | None =>
            log_Printf ("Skipping invalid IP in blacklist: " +:+ ip);;
            load_blacklist rest bl
        | Some _ => load_blacklist rest (<[ip := true]> bl)
        end
  end.

(** [for _, addr := range jsonCfg.OfficialServers] *)
Fixpoint load_official (addrs : list string) (valid : list string)
  : IO (list string) :=
  match addrs with
  | [] => ret valid
  | addr :: rest =>
      let addr := TrimSpace addr in
      if bool_decide (addr = "") then load_official rest valid
      else
        let host :=
          match SplitHostPort addr with
          | Some (host, _) => host
          | None => addr
          end in
        match ParseIP host with
        | None =>
            log_Printf "Skipping official server: not a valid IP";;
            load_official rest valid
        | Some _ => load_official rest (valid ++ [addr])
        end
  end.

(** The five [LUSD_*] overrides at the end of [loadConfig]. *)
Definition env_Port (os : OS) (cfg : Config) : IO Config :=
  port ← os_Getenv os "LUSD_PORT";
  if bool_decide (port ≠ "") then
    match Atoi port with
    | Some p =>
        if bool_decide (p > 0 ∧ p <= 65535) then
          log_Printf "Port overridden by environment variable";;
          ret (with_Port cfg p)
        else
          log_Printf "Invalid LUSD_PORT environment variable, ignoring";;
          ret cfg
    | None =>
        log_Printf "Invalid LUSD_PORT environment variable, ignoring";;
        ret cfg
    end
  else ret cfg.

Definition env_UserAgent (os : OS) (cfg : Config) : IO Config :=
  userAgent ← os_Getenv os "LUSD_USER_AGENT";
  if bool_decide (userAgent ≠ "") then
    if bool_decide (len userAgent > 0 ∧ len userAgent <= 100) then
      log_Printf "User agent overridden by environment variable";;
      ret (with_AllowedUserAgent cfg userAgent)
    else
      log_Printf "Invalid LUSD_USER_AGENT environment variable, ignoring";;
      ret cfg
  else ret cfg.

Definition env_StaleTimeout (os : OS) (cfg : Config) : IO Config :=
  timeout ← os_Getenv os "LUSD_STALE_TIMEOUT";
  if bool_decide (timeout ≠ "") then
    match ParseDuration timeout with
    | Some duration =>
        if bool_decide (duration > 0) then
          log_Printf "Stale timeout overridden by environment variable";;
          ret (with_StaleTimeout cfg duration)
        else
          log_Printf "Invalid LUSD_STALE_TIMEOUT environment variable, ignoring";;
          ret cfg
    | None =>
        log_Printf "Invalid LUSD_STALE_TIMEOUT environment variable, ignoring";;
        ret cfg
    end
  else ret cfg.

Definition env_LogFile (os : OS) (cfg : Config) : IO Config :=
  logFile ← os_Getenv os "LUSD_LOG_FILE";
  if bool_decide (logFile ≠ "") then
    if bool_decide (len logFile > 0 ∧ len logFile <= 255)
       && negb (Contains logFile "..") then
      log_Printf "Log file overridden by environment variable";;
      ret (with_LogFile cfg logFile)
    else
      log_Printf "Invalid LUSD_LOG_FILE environment variable, ignoring";;
      ret cfg
  else ret cfg.

Definition env_LogEnabled (os : OS) (cfg : Config) : IO Config :=
  logEnabled ← os_Getenv os "LUSD_LOG_ENABLED";
  if bool_decide (logEnabled ≠ "") then
    match ParseBool logEnabled with
    | Some enabled =>
        log_Printf "Log enabled overridden by environment variable";;
        ret (with_LogEnabled cfg enabled)
    | None =>
        log_Printf "Invalid LUSD_LOG_ENABLED environment variable, ignoring";;
        ret cfg
    end
  else ret cfg.

(** The branch for a missing file: write a default [config.json]. *)
Definition create_default_config (os : OS) (configPath : string) : IO Config :=
  log_Printf "Config file not found, creating default config";;
  let defaultJsonCfg :=
    {| jPort := Port defaultCfg;
       jAllowedUserAgent := AllowedUserAgent defaultCfg;
       jStaleTimeout := "10m";
       jBlacklist := (map_to_list (Blacklist defaultCfg)).*1;
       jOfficialServers := [];
       jLogFile := LogFile defaultCfg;
       jLogEnabled := LogEnabled defaultCfg |} in
  match MarshalIndent defaultJsonCfg with
  | None =>
      log_Printf "Error creating default config, using defaults";;
      ret defaultCfg
  | Some jsonData =>
      written ← secureWriteFile os configPath jsonData configFileMode;
      (if (written : bool) then log_Printf "Created default config"
       else log_Printf "Error writing default config, using defaults");;
      ret defaultCfg
  end.

(** The part of [loadConfig] after a successful [json.Unmarshal]. *)
Definition config_of_json (os : OS) (jsonCfg : jsonConfig) : IO Config :=
  let cfg :=
    {| Port := jPort jsonCfg;
       AllowedUserAgent := jAllowedUserAgent jsonCfg;
       StaleTimeout := 0;
       Blacklist := ∅;
       OfficialServers := jOfficialServers jsonCfg;
       LogFile := jLogFile jsonCfg;
       LogEnabled := jLogEnabled jsonCfg |} in
  cfg ← match ParseDuration (jStaleTimeout jsonCfg) with
        | None =>
            log_Printf "Invalid staleTimeout format, using default";;
            ret (with_StaleTimeout cfg (StaleTimeout defaultCfg))
        | Some duration => ret (with_StaleTimeout cfg duration)
        end;
  bl ← load_blacklist (jBlacklist jsonCfg) (Blacklist cfg);
  let cfg := with_Blacklist cfg bl in
  validOfficialServers ← load_official (jOfficialServers jsonCfg) [];
  let cfg := with_OfficialServers cfg validOfficialServers in
  cfg ← (if bool_decide (Port cfg < 1 ∨ Port cfg > 65535) then
           log_Printf "Invalid port number, using default";;
           ret (with_Port cfg (Port defaultCfg))
         else ret cfg);
  cfg ← (if bool_decide (AllowedUserAgent cfg = "") then
           log_Printf "Empty allowedUserAgent, using default";;
           ret (with_AllowedUserAgent cfg (AllowedUserAgent defaultCfg))
         else ret cfg);
  cfg ← (if bool_decide (LogFile cfg = "") then
           log_Printf "Empty logFile, using default";;
           ret (with_LogFile cfg (LogFile defaultCfg))
         else ret cfg);
  log_Printf "Successfully loaded config";;
  cfg ← env_Port os cfg;
  cfg ← env_UserAgent os cfg;
  cfg ← env_StaleTimeout os cfg;
  cfg ← env_LogFile os cfg;
  env_LogEnabled os cfg.

(** [loadConfig] *)
Definition loadConfig (os : OS) (configPath : string) : IO Config :=
  let configPath := Clean configPath in
  if Contains configPath ".." then
    log_Printf "Invalid config path detected, using defaults";;
    ret defaultCfg
  else
    st ← os_Stat os configPath;
    match st with
    | StatNotExist => create_default_config os configPath
    | _ =>
        data ← secureReadFile os configPath maxConfigFileSize;
        match data with
        | None =>
            log_Printf "Error reading config file, using defaults";;
            ret defaultCfg
        | Some data =>
            match Unmarshal data with
            | None =>
                log_Printf "Error parsing config file, using defaults";;
                ret defaultCfg
            | Some jsonCfg => config_of_json os jsonCfg
            end
        end
    end.
End LoadConfig.

(** ** Executions of the registry

    The registry is driven by [Report] calls and by ticks of [cleanupLoop],
    each reading the clock once. *)
Inductive Op : Type :=
  | OpReport (ip : string) (port : Z)
  | OpSweep.

Definition step (s : ServerList) (now : time.Time) (op : Op) : ServerList :=
  match op with
  | OpReport ip port => Report s ip port now
  | OpSweep => cleanupTick s now
  end.

(** [reachable cfg t s]: [s] arises from [NewServerList cfg] by steps whose
    clock readings never decrease, the last one being at most [t]. *)
Inductive reachable (cfg : Config) : time.Time → ServerList → Prop :=
  | reachable_new t : reachable cfg t (NewServerList cfg)
  | reachable_step t s t' op :
      reachable cfg t s → t <= t' → reachable cfg t' (step s t' op).

(** Any number of sweeps, at arbitrary instants taken from [ticks]. *)
Definition sweeps (s : ServerList) (ticks : list time.Time) : ServerList :=
  foldl cleanupTick s ticks.

(** Membership in the active set, as the specification words it: a
    registration that is not stale, or an official address. *)
Definition in_active_set (s : ServerList) (now : time.Time) (addr : string) : Prop :=
  (∃ ts, Entries s !! addr = Some ts ∧ cutoff (SLConfig s) now <= ts)
  ∨ addr ∈ OfficialServers (SLConfig s).

(** The entries stored under [addr], as a list. *)
Definition entries_for (s : ServerList) (addr : string) : list (string * Z) :=
  filter (λ kv, kv.1 = addr) (map_to_list (Entries s)).

(** ** Executions of the whole service *)
Inductive AppEvent : Type :=
  | HttpReport (r : Request) (t_rl now : time.Time)
  | HttpServers (r : Request) (t_rl now : time.Time)
  | HttpOfficial (r : Request) (t_rl now : time.Time)
  | Tick (now : time.Time).

Section Service.
Context (ParseIP : string → option (list Z)).

Definition app_step (cfg : Config) (a : App) (e : AppEvent) : App :=
  match e with
  | HttpReport r t_rl now => (report_endpoint ParseIP cfg a r t_rl now).1
  | HttpServers r t_rl now => (securityMiddleware servers_txt a r t_rl now).1
  | HttpOfficial r t_rl now => (securityMiddleware official_txt a r t_rl now).1
  | Tick now =>
      {| servers := cleanupTick (servers a) now;
         rateLimitMap := rateLimitMap a |}
  end.

Definition app_run (cfg : Config) (es : list AppEvent) : App :=
  foldl (app_step cfg) (main_init cfg) es.

End Service.

(** The checks of the handler that precede the look at the source address:
    [POST], the expected [User-Agent], a form that parses, and a [port]
    field that is an integer in [1024, 65535]. *)
Definition otherwise_valid (cfg : Config) (r : Request) : Prop :=
  Method r = "POST" ∧ UserAgent r = AllowedUserAgent cfg ∧
  ∃ form port,
    ParseForm r = Some form ∧ FormValue form "port" ≠ "" ∧
    Atoi (FormValue form "port") = Some port ∧ 1024 <= port <= 65535.

(** ** An instance of the [ParseIP] parameter

    The dotted-decimal IPv4 literals: four fields of one to three digits,
    each at most 255 and without a leading zero.  The library accepts these
    (and IPv6 literals besides); the examples below run the handlers with
    this instance. *)
Fixpoint ipv4_fields (s : string) (val digLen : Z) (fields : list Z)
  : option (list Z) :=
  match s with
  | EmptyString =>
      if bool_decide (length fields = 3%nat ∧ 0 < digLen)
      then Some (fields ++ [val]) else None
  | String c s' =>
      if is_digit c then
        if bool_decide (digLen = 1 ∧ val = 0) then None
        else
          let val' := val * 10 + (byte_of c - 48) in
          if bool_decide (val' > 255) then None
          else ipv4_fields s' val' (digLen + 1) fields
      else if Ascii.eqb c "." then
        if bool_decide (digLen = 0 ∨ length fields = 3%nat) then None
        else ipv4_fields s' 0 0 (fields ++ [val])
      else None
  end.

Definition ParseIPv4 (s : string) : option (list Z) := ipv4_fields s 0 0 [].

(** An operating system without a config file, without environment
    variables, and on which writes succeed. *)
Definition empty_os : OS :=
  {| Stat := λ _, StatNotExist;
     ReadFile := λ _, None;
     MkdirAll := λ _ _, true;
     WriteFile := λ _ _ _, true;
     Getenv := λ _, "" |}.

(** ** Sample states used in the examples *)

(** One minute of stale timeout, one official server. *)
Definition demo_cfg : Config :=
  {| Port := 80;
     AllowedUserAgent := "LU-Server/0.1";
     StaleTimeout := 60 * time.Second;
     Blacklist := {["6.6.6.6" := true]};
     OfficialServers := ["10.0.0.1:9000"];
     LogFile := "";
     LogEnabled := false |}.

(** A registry holding a fresh entry, a stale one, and a report of the
    official server, all relative to the instant [demo_now]. *)
Definition demo_state : ServerList :=
  {| Entries := {[ "1.2.3.4:2301" := 100; "9.9.9.9:5000" := 7; "10.0.0.1:9000" := 3 ]};
     SLConfig := demo_cfg |}.

Definition demo_now : time.Time := 130 * time.Second.

(** A well-formed registration request from [1.2.3.4]. *)
Definition demo_request : Request :=
  {| Method := "POST";
     UserAgent := "LU-Server/0.1";
     RemoteAddr := "1.2.3.4:50000";
     ParseForm := Some [("port", "2301")] |}.

(** The same request, arriving with a source address that does not split
    into host and port. *)
Definition malformed_source_request : Request :=
  {| Method := "POST";
     UserAgent := "LU-Server/0.1";
     RemoteAddr := "not-an-address";
     ParseForm := Some [("port", "2301")] |}.

(** The same request from a blacklisted address. *)
Definition blacklisted_request : Request :=
  {| Method := "POST";
     UserAgent := "LU-Server/0.1";
     RemoteAddr := "6.6.6.6:50000";
     ParseForm := Some [("port", "2301")] |}.

(** [os] with its process environment replaced by [env]. *)
Definition with_Getenv (os : OS) (env : string → string) : OS :=
  {| Stat := Stat os; ReadFile := ReadFile os; MkdirAll := MkdirAll os;
     WriteFile := WriteFile os; Getenv := env |}.

Definition is_Getenv (e : Event) : bool :=
  match e with EGetenv _ => true | _ => false end.

(** A trace in which no environment variable is read. *)
Definition no_Getenv (tr : list Event) : Prop :=
  Forall (λ e, is_Getenv e = false) tr.

(** An operating system with a config file holding the empty JSON object
    and one override in the environment. *)
Definition demo_os : OS :=
  {| Stat := λ path, if bool_decide (path = "config.json") then StatInfo 2 else StatNotExist;
     ReadFile := λ path, if bool_decide (path = "config.json") then Some "{}" else None;
     MkdirAll := λ _ _, true;
     WriteFile := λ _ _ _, true;
     Getenv := λ key, if bool_decide (key = "LUSD_PORT") then "8080" else "" |}.

(** Values for the library parameters of [loadConfig] on the paths and
    texts of the examples: paths that are already clean and relative, a
    decoder for the one document [demo_os] stores (the empty object, which
    leaves every field at its zero value), and the one duration the
    examples mention. *)
Definition demo_Clean (path : string) : string := path.
Definition demo_IsAbs (path : string) : bool := false.
Definition demo_Dir (path : string) : string := ".".
Definition demo_Unmarshal (data : string) : option jsonConfig :=
  if bool_decide (data = "{}") then
    Some {| jPort := 0; jAllowedUserAgent := ""; jStaleTimeout := "";
            jBlacklist := []; jOfficialServers := []; jLogFile := "";
            jLogEnabled := false |}
  else None.
Definition demo_MarshalIndent (j : jsonConfig) : option string := Some "{}".
Definition demo_ParseDuration (s : string) : option time.Duration :=
  if bool_decide (s = "10m") then Some (10 * time.Minute) else None.
Definition demo_TrimSpace (s : string) : string := s.

(** ** Notions used in the further properties *)

(** A text made of decimal digits only. *)
Fixpoint all_digits (s : string) : bool :=
  match s with
  | EmptyString => true
  | String c s' => is_digit c && all_digits s'
  end.

(** The latest of the instant [t] and the instants [ticks]. *)
Definition latest (t : time.Time) (ticks : list time.Time) : time.Time :=
  foldl Z.max t ticks.

(** The minute [checkRateLimit] computes from a clock reading, and the
    number of requests a list records for a minute. *)
Definition minute_of (now : time.Time) : Z := time.Unix now `quot` 60.

Definition requests_in (minute : Z) (times : list Z) : Z :=
  Z.of_nat (length (filter (λ t, t = minute) times)).

(** The maps the rate limiter can hold: from the empty map of [main], by
    calls of [checkRateLimit] whose clock readings never decrease, the last
    one being at most [t]. *)
Inductive limiter_reachable : time.Time → gmap string (list Z) → Prop :=
  | limiter_new t : limiter_reachable t ∅
  | limiter_step t rl ip t' :
      limiter_reachable t rl → t <= t' →
      limiter_reachable t' (checkRateLimit rl ip t').2.

(** The host [loadConfig] validates for an official server: the host part
    when the address splits, the whole address otherwise. *)
Definition official_host (addr : string) : string :=
  match SplitHostPort addr with
  | Some (host, _) => host
  | None => addr
  end.

Definition is_write (e : Event) : bool :=
  match e with
  | EWriteFile _ _ _ | EMkdirAll _ _ => true
  | _ => false
  end.

Definition is_read (e : Event) : bool :=
  match e with EReadFile _ => true | _ => false end.

(** ** Notions used in the corrected statements *)

(** A host text without a colon or a bracket, as every dotted-decimal IPv4
    literal is. *)
Definition plain_host (host : string) : Prop :=
  IndexByte host ":" = None ∧ IndexByte host "[" = None ∧
  IndexByte host "]" = None.




(* ================================================================= *)
(** * Properties *)

(** ** Time *)

Lemma Unix_mono (t t' : time.Time) : t <= t' → time.Unix t <= time.Unix t'.
Proof. intros H. unfold time.Unix. apply Z.div_le_mono; lia. Qed.

Lemma neg64_exact (d : time.Duration) : - 2 ^ 63 < d < 2 ^ 63 → neg64 d = - d.
Proof.
  intros H. unfold neg64, wrap64.
  rewrite Z.mod_small by lia. lia.
Qed.

Lemma cutoff_mono (cfg : Config) (t t' : time.Time) :
  t <= t' → cutoff cfg t <= cutoff cfg t'.
Proof. intros H. unfold cutoff, time.Add. apply Unix_mono. lia. Qed.

Lemma cutoff_exact (cfg : Config) (now : time.Time) :
  - 2 ^ 63 < StaleTimeout cfg < 2 ^ 63 →
  cutoff cfg now = time.Unix (now - StaleTimeout cfg).
Proof.
  intros H. unfold cutoff, time.Add. by rewrite neg64_exact.
Qed.

(** ** The loops of [GetActive] *)

Lemma collect_reported_cons cut k ts it acc :
  collect_reported cut ((k, ts) :: it) acc =
  collect_reported cut it
    (if bool_decide (cut <= ts) then <[k := true]> acc else acc).
Proof. reflexivity. Qed.

Lemma collect_official_cons k official acc :
  collect_official (k :: official) acc =
  collect_official official (<[k := true]> acc).
Proof. reflexivity. Qed.

Lemma collect_reported_lookup cut it acc (a : string) :
  is_Some (collect_reported cut it acc !! a) ↔
  is_Some (acc !! a) ∨ ∃ ts, (a, ts) ∈ it ∧ cut <= ts.
Proof.
  revert acc. induction it as [|[k ts] it IH]; intros acc.
  - simpl. split; [auto|]. intros [?|(ts & Hin & _)]; [done|]. by apply elem_of_nil in Hin.
  - rewrite collect_reported_cons, IH. clear IH.
    case_bool_decide as Hts.
    + rewrite lookup_insert_is_Some. split.
      * intros [[->|[_ ?]]|(ts' & ? & ?)]; eauto using list_elem_of_here, list_elem_of_further.
      * intros [?|(ts' & [[= -> ->]|?]%elem_of_cons & ?)]; eauto.
        destruct (decide (k = a)); eauto.
    + split.
      * intros [?|(ts' & ? & ?)]; eauto using list_elem_of_further.
      * intros [?|(ts' & [[= -> ->]|?]%elem_of_cons & ?)]; eauto. lia.
Qed.

Lemma collect_official_lookup official acc (a : string) :
  is_Some (collect_official official acc !! a) ↔
  is_Some (acc !! a) ∨ a ∈ official.
Proof.
  revert acc. induction official as [|k official IH]; intros acc.
  - simpl. rewrite elem_of_nil. tauto.
  - rewrite collect_official_cons, IH, lookup_insert_is_Some, elem_of_cons.
    split.
    + intros [[->|[_ ?]]|?]; auto.
    + destruct (decide (k = a)); intros [?|[->|?]]; auto.
Qed.

Lemma keys_in_order_fst (it : list (string * bool)) : keys_in_order it = it.*1.
Proof.
  unfold keys_in_order.
  enough (∀ l0, foldl (λ l '(addr, _), l ++ [addr]) l0 it = l0 ++ it.*1) as H
    by apply H.
  induction it as [|[k b] it IH]; intros l0; simpl.
  - by rewrite app_nil_r.
  - by rewrite IH, <- app_assoc.
Qed.

(** Whatever order the iterator of [s.Entries] follows, [activeMap] holds
    exactly the addresses of the active set. *)
Lemma activeMap_of_lookup s now it1 (a : string) :
  it1 ≡ₚ map_to_list (Entries s) →
  is_Some (activeMap_of s now it1 !! a) ↔ in_active_set s now a.
Proof.
  intros Hit. unfold activeMap_of, in_active_set.
  rewrite collect_official_lookup, collect_reported_lookup, lookup_empty.
  split.
  - intros [[[? ?]|(ts & Hin & ?)]|?]; [done| |by right].
    left. exists ts. split; [|done].
    apply elem_of_map_to_list. by rewrite <- Hit.
  - intros [(ts & Hl & ?)|?]; [|by right].
    left. right. exists ts. split; [|done].
    rewrite Hit. by apply elem_of_map_to_list.
Qed.

(** ** [sort.Strings] *)

Lemma sort_Strings_Sorted l : Sorted String.le (sort_Strings l).
Proof. apply (Sorted_merge_sort String.le). Qed.

Lemma sort_Strings_Permutation l : sort_Strings l ≡ₚ l.
Proof. apply merge_sort_Permutation. Qed.

Lemma sort_Strings_elem_of l (a : string) : a ∈ sort_Strings l ↔ a ∈ l.
Proof. by rewrite sort_Strings_Permutation. Qed.

(** The output of [sort.Strings] depends on the elements of its argument
    only, not on their order. *)
Lemma sort_Strings_order_irrelevant l1 l2 :
  l1 ≡ₚ l2 → sort_Strings l1 = sort_Strings l2.
Proof.
  intros H. apply (Sorted_unique String.le); try apply sort_Strings_Sorted.
  by rewrite !sort_Strings_Permutation.
Qed.

(** A sorted list without duplicates is determined by its elements. *)
Lemma sorted_nodup_ext (l1 l2 : list string) :
  Sorted String.le l1 → Sorted String.le l2 → NoDup l1 → NoDup l2 →
  (∀ a, a ∈ l1 ↔ a ∈ l2) → l1 = l2.
Proof.
  intros ?? ?? Hext. apply (Sorted_unique String.le); [done..|].
  by apply NoDup_Permutation.
Qed.

(** ** [GetActive] *)

Lemma GetActive_iter_elem_of s now it1 it2 (a : string) :
  it1 ≡ₚ map_to_list (Entries s) →
  it2 ≡ₚ map_to_list (activeMap_of s now it1) →
  a ∈ GetActive_iter it2 ↔ in_active_set s now a.
Proof.
  intros H1 H2. unfold GetActive_iter.
  rewrite sort_Strings_elem_of, keys_in_order_fst, H2.
  rewrite <- (activeMap_of_lookup s now it1 a H1).
  rewrite list_elem_of_fmap. split.
  - intros ([k b] & -> & Hin%elem_of_map_to_list). eauto.
  - intros [b Hb]. exists (a, b). split; [done|]. by apply elem_of_map_to_list.
Qed.

Lemma GetActive_iter_NoDup s now it1 it2 :
  it2 ≡ₚ map_to_list (activeMap_of s now it1) →
  NoDup (GetActive_iter it2).
Proof.
  intros H2. unfold GetActive_iter.
  rewrite sort_Strings_Permutation, keys_in_order_fst, H2.
  apply NoDup_fst_map_to_list.
Qed.

Lemma GetActive_elem_of s now (a : string) :
  a ∈ GetActive s now ↔ in_active_set s now a.
Proof. by apply (GetActive_iter_elem_of s now (map_to_list (Entries s))). Qed.

Lemma GetActive_NoDup s now : NoDup (GetActive s now).
Proof. by apply (GetActive_iter_NoDup s now (map_to_list (Entries s))). Qed.

Lemma GetActive_Sorted s now : Sorted String.le (GetActive s now).
Proof. apply sort_Strings_Sorted. Qed.

(** Two snapshots with the same active set are the same list. *)
Lemma GetActive_ext s1 now1 s2 now2 :
  (∀ a, in_active_set s1 now1 a ↔ in_active_set s2 now2 a) →
  GetActive s1 now1 = GetActive s2 now2.
Proof.
  intros H. apply sorted_nodup_ext;
    auto using GetActive_Sorted, GetActive_NoDup.
  intros a. by rewrite !GetActive_elem_of.
Qed.

(** ** [Report] and the sweep *)

Lemma ServerList_eq (s1 s2 : ServerList) :
  Entries s1 = Entries s2 → SLConfig s1 = SLConfig s2 → s1 = s2.
Proof. destruct s1, s2; simpl; congruence. Qed.

Lemma Report_lookup_eq s ip port now :
  Entries (Report s ip port now) !! host_port ip port = Some (time.Unix now).
Proof. apply lookup_insert_eq. Qed.

Lemma Report_lookup_ne s ip port now (a : string) :
  a ≠ host_port ip port →
  Entries (Report s ip port now) !! a = Entries s !! a.
Proof. intros. by apply lookup_insert_ne. Qed.

Lemma sweep_loop_cons cut k ts it m :
  sweep_loop cut ((k, ts) :: it) m =
  sweep_loop cut it (if bool_decide (ts < cut) then delete k m else m).
Proof. reflexivity. Qed.

(** The loop never adds a key. *)
Lemma sweep_loop_None cut it m (a : string) :
  m !! a = None → sweep_loop cut it m !! a = None.
Proof.
  revert m. induction it as [|[k ts] it IH]; intros m Hm; [done|].
  rewrite sweep_loop_cons. apply IH.
  case_bool_decide; [|done]. apply lookup_delete_None. by right.
Qed.

(** A key visited with a stale timestamp is gone afterwards. *)
Lemma sweep_loop_stale cut it m (a : string) ts :
  (a, ts) ∈ it → ts < cut → sweep_loop cut it m !! a = None.
Proof.
  revert m. induction it as [|[k ts'] it IH]; intros m Hin Hts.
  - by apply elem_of_nil in Hin.
  - rewrite sweep_loop_cons. apply elem_of_cons in Hin as [[= <- <-]|Hin].
    + rewrite bool_decide_true by done.
      apply sweep_loop_None, lookup_delete_eq.
    + by apply IH.
Qed.

(** A key visited only with fresh timestamps is left alone. *)
Lemma sweep_loop_fresh cut it m (a : string) :
  (∀ ts, (a, ts) ∈ it → cut <= ts) → sweep_loop cut it m !! a = m !! a.
Proof.
  revert m. induction it as [|[k ts'] it IH]; intros m Hfresh; [done|].
  rewrite sweep_loop_cons, IH.
  - case_bool_decide as Hts; [|done]. apply lookup_delete_ne. intros ->.
    specialize (Hfresh ts' (list_elem_of_here _ _)). lia.
  - intros ts Hin. apply Hfresh. by apply list_elem_of_further.
Qed.

(** Whatever order the iterator follows, one pass keeps exactly the entries
    that are not older than the cutoff. *)
Lemma sweep_loop_lookup_Some cut it m (a : string) ts :
  it ≡ₚ map_to_list m →
  sweep_loop cut it m !! a = Some ts ↔ m !! a = Some ts ∧ cut <= ts.
Proof.
  intros Hit.
  assert (∀ k v, (k, v) ∈ it ↔ m !! k = Some v) as Hin.
  { intros k v. rewrite Hit. apply elem_of_map_to_list. }
  destruct (m !! a) as [ts0|] eqn:Ha.
  - destruct (decide (ts0 < cut)) as [Hstale|Hfresh].
    + rewrite (sweep_loop_stale cut it m a ts0) by (by rewrite ?Hin).
      split; [done|]. intros [[= ->] ?]. lia.
    + rewrite sweep_loop_fresh, Ha.
      * split; [intros [= ->]; split; [done|lia] | by intros [? _]].
      * intros v Hv%Hin. assert (v = ts0) as -> by congruence. lia.
  - rewrite sweep_loop_None by done. split; [done|by intros [? _]].
Qed.

Lemma cleanupTick_iter_lookup_Some s now it (a : string) ts :
  it ≡ₚ map_to_list (Entries s) →
  Entries (cleanupTick_iter s now it) !! a = Some ts ↔
  Entries s !! a = Some ts ∧ cutoff (SLConfig s) now <= ts.
Proof. apply sweep_loop_lookup_Some. Qed.

Lemma cleanupTick_lookup_Some s now (a : string) ts :
  Entries (cleanupTick s now) !! a = Some ts ↔
  Entries s !! a = Some ts ∧ cutoff (SLConfig s) now <= ts.
Proof. by apply cleanupTick_iter_lookup_Some. Qed.

(** The state after a tick does not depend on the iteration order. *)
Lemma cleanupTick_iter_order_irrelevant s now it :
  it ≡ₚ map_to_list (Entries s) →
  cleanupTick_iter s now it = cleanupTick s now.
Proof.
  intros Hit. apply ServerList_eq; [|done].
  apply map_eq. intros a. apply option_eq. intros ts.
  by rewrite cleanupTick_iter_lookup_Some, cleanupTick_lookup_Some.
Qed.

Lemma cleanupTick_Config s now : SLConfig (cleanupTick s now) = SLConfig s.
Proof. reflexivity. Qed.

Lemma cleanupTick_subseteq s now : Entries (cleanupTick s now) ⊆ Entries s.
Proof.
  apply map_subseteq_spec. intros a ts.
  rewrite cleanupTick_lookup_Some. by intros [? _].
Qed.

(** A later pass subsumes an earlier one. *)
Lemma cleanupTick_absorb s now1 now2 :
  cutoff (SLConfig s) now1 <= cutoff (SLConfig s) now2 →
  cleanupTick (cleanupTick s now1) now2 = cleanupTick s now2.
Proof.
  intros Hle. apply ServerList_eq; [|done].
  apply map_eq. intros a. apply option_eq. intros ts.
  rewrite !cleanupTick_lookup_Some, cleanupTick_Config. intuition lia.
Qed.

Lemma step_Config s now op : SLConfig (step s now op) = SLConfig s.
Proof. by destruct op. Qed.

Lemma sweeps_Config s ticks : SLConfig (sweeps s ticks) = SLConfig s.
Proof.
  revert s. induction ticks as [|t ticks IH]; intros s; [done|].
  unfold sweeps in *. simpl. by rewrite IH.
Qed.

Lemma sweeps_lookup_Some s ticks (a : string) ts :
  Entries (sweeps s ticks) !! a = Some ts ↔
  Entries s !! a = Some ts ∧ Forall (λ t, cutoff (SLConfig s) t <= ts) ticks.
Proof.
  revert s. induction ticks as [|t ticks IH]; intros s.
  - simpl. split; [by intros ?; split|by intros [? _]].
  - unfold sweeps in *. simpl. rewrite IH, cleanupTick_lookup_Some, Forall_cons.
    rewrite cleanupTick_Config. tauto.
Qed.

(** Every timestamp of a reachable state is a clock reading of the past. *)
Lemma reachable_timestamps cfg t s (a : string) ts :
  reachable cfg t s → Entries s !! a = Some ts → ts <= time.Unix t.
Proof.
  induction 1 as [t|t s t' op Hreach IH Hle] in a, ts |- *; simpl.
  - by rewrite lookup_empty.
  - destruct op as [ip port|]; simpl.
    + intros [[_ <-]|[_ Hold]]%lookup_insert_Some; [done|].
      etrans; [by eapply IH|]. by apply Unix_mono.
    + intros [Hold _]%cleanupTick_lookup_Some.
      etrans; [by eapply IH|]. by apply Unix_mono.
Qed.

(** ** Concrete runs *)

Example itoa_2301 : itoa 2301 = "2301".
Proof. reflexivity. Qed.

Example host_port_ex : host_port "1.2.3.4" 2301 = "1.2.3.4:2301".
Proof. reflexivity. Qed.

Example SplitHostPort_v4 : SplitHostPort "1.2.3.4:50000" = Some ("1.2.3.4", "50000").
Proof. reflexivity. Qed.

Example SplitHostPort_v6 : SplitHostPort "[::1]:50000" = Some ("::1", "50000").
Proof. reflexivity. Qed.

Example SplitHostPort_no_port : SplitHostPort "not-an-address" = None.
Proof. reflexivity. Qed.

(** Scenario 1 of the specification: one minute of timeout, one official
    server, a report at [t = 0]. *)
Example scenario_1 :
  let s := Report (NewServerList demo_cfg) "1.2.3.4" 2301 0 in
  GetActive s (30 * time.Second) = ["1.2.3.4:2301"; "10.0.0.1:9000"] ∧
  GetActive (cleanupTick s (90 * time.Second)) (90 * time.Second)
    = ["10.0.0.1:9000"] ∧
  Entries (cleanupTick s (90 * time.Second)) = ∅.
Proof. by vm_compute. Qed.

(** Scenario 2: two reports from one host with different ports. *)
Example scenario_2 :
  let s := Report (Report (NewServerList demo_cfg) "5.6.7.8" 3000 0) "5.6.7.8" 3001 0 in
  GetActive s 0 = ["10.0.0.1:9000"; "5.6.7.8:3000"; "5.6.7.8:3001"].
Proof. by vm_compute. Qed.

(** Scenario 3: a report of the official server itself; listed once, and
    still listed when the report has gone stale. *)
Example scenario_3 :
  let s := Report (NewServerList demo_cfg) "10.0.0.1" 9000 0 in
  GetActive s (30 * time.Second) = ["10.0.0.1:9000"] ∧
  GetActive s (3600 * time.Second) = ["10.0.0.1:9000"].
Proof. by vm_compute. Qed.

(** ** The claims about the registry *)




(** C4. An address of the official list is in every snapshot, whatever the
    registration mapping holds and whatever the time of the query. *)
Theorem official_permanence s now addr :
  addr ∈ OfficialServers (SLConfig s) → addr ∈ GetActive s now.
Proof. intros H. apply GetActive_elem_of. by right. Qed.

Lemma official_permanence_witness :
  "10.0.0.1:9000" ∈ OfficialServers (SLConfig demo_state) ∧
  "10.0.0.1:9000" ∈ GetActive demo_state (1000000 * time.Second).
Proof.
  split.
  - vm_compute. apply list_elem_of_here.
  - apply (official_permanence demo_state (1000000 * time.Second)).
    vm_compute. apply list_elem_of_here.
Defined.

(** C5. The body of a sweep is idempotent: a second pass at the same
    instant leaves the state as the first pass left it. *)
Theorem cleanupTick_idempotent s now :
  cleanupTick (cleanupTick s now) now = cleanupTick s now.
Proof. apply cleanupTick_absorb. lia. Qed.

(** C6. The sweep and the snapshot agree: a snapshot taken right after a
    sweep pass at the same instant is the snapshot taken without the pass;
    an address outside the official list is listed by the snapshot exactly
    when the pass keeps its entry, so the pass deletes exactly the entries
    the snapshot filters out; and the entries kept are those with
    timestamp at least the cutoff, which is the Unix second of
    [now - staleTimeout] whenever negating the timeout does not
    overflow. *)
Theorem GetActive_after_cleanupTick s now :
  GetActive (cleanupTick s now) now = GetActive s now ∧
  (∀ addr,
     addr ∉ OfficialServers (SLConfig s) →
     (addr ∈ GetActive s now ↔ is_Some (Entries (cleanupTick s now) !! addr))) ∧
  Entries (cleanupTick s now) =
    filter (λ kv, cutoff (SLConfig s) now <= kv.2) (Entries s) ∧
  (- 2 ^ 63 < StaleTimeout (SLConfig s) < 2 ^ 63 →
   ∀ addr ts,
     Entries (cleanupTick s now) !! addr = Some ts ↔
     Entries s !! addr = Some ts ∧
     time.Unix (now - StaleTimeout (SLConfig s)) <= ts).
Proof.
  split_and!.
  - apply GetActive_ext. intros a. unfold in_active_set.
    rewrite cleanupTick_Config.
    setoid_rewrite cleanupTick_lookup_Some. split.
    + intros [(ts & [? _] & ?)|?]; [left; eauto|by right].
    + intros [(ts & ? & ?)|?]; [left; eauto|by right].
  - intros addr Hoff. rewrite GetActive_elem_of. unfold in_active_set, is_Some.
    setoid_rewrite cleanupTick_lookup_Some. split.
    + intros [(ts & ? & ?)|?]; [eauto|contradiction].
    + intros (ts & ? & ?). left. eauto.
  - apply map_eq. intros a. apply option_eq. intros ts.
    by rewrite cleanupTick_lookup_Some, map_lookup_filter_Some.
  - intros HT addr ts. by rewrite cleanupTick_lookup_Some, cutoff_exact.
Qed.

Lemma GetActive_after_cleanupTick_witness :
  ("9.9.9.9:5000" ∉ OfficialServers (SLConfig demo_state)) ∧
  (- 2 ^ 63 < StaleTimeout (SLConfig demo_state) < 2 ^ 63) ∧
  ("9.9.9.9:5000" ∈ GetActive demo_state demo_now ↔
   is_Some (Entries (cleanupTick demo_state demo_now) !! "9.9.9.9:5000")) ∧
  (Entries (cleanupTick demo_state demo_now) !! "1.2.3.4:2301" = Some 100 ↔
   Entries demo_state !! "1.2.3.4:2301" = Some 100 ∧
   time.Unix (demo_now - StaleTimeout (SLConfig demo_state)) <= 100).
Proof.
  assert ("9.9.9.9:5000" ∉ OfficialServers (SLConfig demo_state)) as Hoff.
  { simpl. intros [Heq|Hin]%elem_of_cons; [discriminate Heq|].
    by apply elem_of_nil in Hin. }
  assert (- 2 ^ 63 < StaleTimeout (SLConfig demo_state) < 2 ^ 63) as HT
    by (split; by vm_compute).
  destruct (GetActive_after_cleanupTick demo_state demo_now)
    as (_ & Hagree & _ & Hformula).
  split; [exact Hoff|]. split; [exact HT|].
  split; [exact (Hagree "9.9.9.9:5000" Hoff)|exact (Hformula HT "1.2.3.4:2301" 100)].
Defined.

Lemma Unix_add_Second (t : time.Time) :
  time.Unix (t + time.Second) = time.Unix t + 1.
Proof.
  unfold time.Unix, time.Second, time.Nanosecond.
  replace (t + 1000000000 * 1) with (t + 1 * 1000000000) by lia.
  by rewrite Z.div_add.
Qed.

(** C2, as the code has it.  With [staleTimeout = T], an entry that is not
    an official address and was reported at [t0] is in the snapshot taken at
    [now] exactly when [Unix (now - T) <= Unix t0], whether or not sweeps
    have run in between.  So it is listed at every instant up to and
    including [t0 + T], and it is gone from [t0 + T] plus one second on. *)
Theorem staleness_boundary s ip port t0 now ticks :
  let T := StaleTimeout (SLConfig s) in
  let addr := host_port ip port in
  let s' := sweeps (Report s ip port t0) ticks in
  0 <= T < 2 ^ 63 →
  addr ∉ OfficialServers (SLConfig s) →
  Forall (λ t, t <= now) ticks →
  (addr ∈ GetActive s' now ↔ time.Unix (now - T) <= time.Unix t0) ∧
  (now <= t0 + T → addr ∈ GetActive s' now) ∧
  (t0 + T + time.Second <= now → addr ∉ GetActive s' now).
Proof.
  intros T addr s' HT Hoff Hticks.
  assert (cutoff (SLConfig s) now = time.Unix (now - T)) as Hcut.
  { apply cutoff_exact. subst T. lia. }
  assert (addr ∈ GetActive s' now ↔ time.Unix (now - T) <= time.Unix t0) as Hiff.
  { rewrite GetActive_elem_of. unfold in_active_set. subst s'.
    rewrite sweeps_Config. simpl. rewrite Hcut.
    setoid_rewrite sweeps_lookup_Some. simpl. split.
    - intros [(ts & [Hts _] & Hle)|?]; [|contradiction].
      unfold addr in Hts. rewrite lookup_insert_eq in Hts. by injection Hts as <-.
    - intros Hle. left. exists (time.Unix t0). split; [|done].
      split; [apply lookup_insert_eq|].
      eapply Forall_impl; [exact Hticks|]. intros t Ht. simpl in Ht.
      etrans; [by apply cutoff_mono|]. by rewrite Hcut. }
  split_and!; [done| |].
  - intros Hnow. apply Hiff. apply Unix_mono. lia.
  - intros Hnow. rewrite Hiff.
    assert (time.Unix t0 + 1 <= time.Unix (now - T)); [|lia].
    rewrite <- Unix_add_Second. apply Unix_mono. lia.
Qed.

Lemma staleness_boundary_witness :
  let s := NewServerList demo_cfg in
  let s' := sweeps (Report s "1.2.3.4" 2301 0) [30 * time.Second; 60 * time.Second] in
  ("1.2.3.4:2301" ∈ GetActive s' (60 * time.Second) ↔
     time.Unix (60 * time.Second - 60 * time.Second) <= time.Unix 0) ∧
  (60 * time.Second <= 0 + 60 * time.Second →
     "1.2.3.4:2301" ∈ GetActive s' (60 * time.Second)) ∧
  (0 + 60 * time.Second + time.Second <= 60 * time.Second →
     "1.2.3.4:2301" ∉ GetActive s' (60 * time.Second)).
Proof.
  apply (staleness_boundary (NewServerList demo_cfg) "1.2.3.4" 2301 0
           (60 * time.Second) [30 * time.Second; 60 * time.Second]).
  - split; by vm_compute.
  - vm_compute. intros H. inversion H as [|? ? ? H']. inversion H'.
  - repeat constructor; by vm_compute.
Defined.

(** C2, as stated, fails at the boundary: with [T] = 60 s and a report at
    [t0 = 0], the entry is still listed by the snapshot taken at
    [t0 + T] = 60 s. *)
Lemma stale_at_boundary_counterexample :
  ¬ (∀ s ip port t0 now,
       0 <= StaleTimeout (SLConfig s) < 2 ^ 63 →
       host_port ip port ∉ OfficialServers (SLConfig s) →
       t0 + StaleTimeout (SLConfig s) <= now →
       host_port ip port ∉ GetActive (Report s ip port t0) now).
Proof.
  intros H.
  apply (H (NewServerList (with_OfficialServers demo_cfg [])) "1.2.3.4" 2301 0
           (60 * time.Second)).
  - split; by vm_compute.
  - simpl. apply not_elem_of_nil.
  - by vm_compute.
  - assert (GetActive (Report (NewServerList (with_OfficialServers demo_cfg []))
                         "1.2.3.4" 2301 0) (60 * time.Second)
            = ["1.2.3.4:2301"]) as -> by (vm_compute; reflexivity).
    apply list_elem_of_here.
Qed.

(** C3. Two reports of one address, the second no earlier than the first,
    leave a single entry for it, carrying the time of the second report,
    which is also the later of the two; other addresses are untouched. *)
Theorem Report_twice s ip port t1 t2 :
  let addr := host_port ip port in
  let s' := Report (Report s ip port t1) ip port t2 in
  t1 <= t2 →
  entries_for s' addr = [(addr, time.Unix t2)] ∧
  Entries s' !! addr = Some (time.Unix t2) ∧
  time.Unix t2 = Z.max (time.Unix t1) (time.Unix t2) ∧
  (∀ a, a ≠ addr → Entries s' !! a = Entries s !! a).
Proof.
  intros addr s' Hle. split_and!.
  - unfold entries_for, s'. simpl. fold addr.
    rewrite insert_insert_eq, <- insert_delete_eq.
    apply Permutation_singleton_r.
    rewrite map_to_list_insert by apply lookup_delete_eq.
    rewrite filter_cons_True by done.
    destruct (filter _ (map_to_list (delete addr (Entries s)))) as [|[k v] l] eqn:Hf;
      [done|].
    assert ((k, v) ∈ filter (λ kv : string * Z, kv.1 = addr)
              (map_to_list (delete addr (Entries s)))) as Hin
      by (rewrite Hf; apply list_elem_of_here).
    apply list_elem_of_filter in Hin as [Hk Hin]. simpl in Hk. subst k.
    apply elem_of_map_to_list in Hin. by rewrite lookup_delete_eq in Hin.
  - apply lookup_insert_eq.
  - apply Unix_mono in Hle. lia.
  - intros a Ha. unfold s'. by rewrite !Report_lookup_ne.
Qed.

Lemma Report_twice_witness :
  let s' := Report (Report demo_state "1.2.3.4" 2301 (200 * time.Second))
                   "1.2.3.4" 2301 (201 * time.Second) in
  200 * time.Second <= 201 * time.Second ∧
  entries_for s' "1.2.3.4:2301" = [("1.2.3.4:2301", 201)].
Proof.
  split; [by vm_compute|].
  apply (Report_twice demo_state "1.2.3.4" 2301 (200 * time.Second)
           (201 * time.Second)).
  by vm_compute.
Defined.

(** C7. Along an execution from [NewServerList] whose clock readings never
    decrease, a step never lowers the timestamp of an entry that is present
    before and after it; and a sweep only removes entries, so an entry that
    survives it keeps its timestamp. *)
Theorem no_timestamp_decrease cfg t s t' op :
  reachable cfg t s → t <= t' →
  (∀ addr ts ts',
     Entries s !! addr = Some ts →
     Entries (step s t' op) !! addr = Some ts' → ts <= ts') ∧
  (op = OpSweep → Entries (step s t' op) ⊆ Entries s).
Proof.
  intros Hreach Hle. split.
  - intros addr ts ts' Hold Hnew.
    destruct op as [ip port|]; simpl in Hnew.
    + apply lookup_insert_Some in Hnew as [[_ <-]|[_ Hnew]].
      * etrans; [by eapply reachable_timestamps|]. by apply Unix_mono.
      * assert (ts = ts') by congruence. lia.
    + apply cleanupTick_lookup_Some in Hnew as [Hnew _].
      assert (ts = ts') by congruence. lia.
  - intros ->. apply cleanupTick_subseteq.
Qed.

Lemma no_timestamp_decrease_witness :
  let s := step (NewServerList demo_cfg) (10 * time.Second) (OpReport "1.2.3.4" 2301) in
  let s' := step s (12 * time.Second) (OpReport "1.2.3.4" 2301) in
  Entries s !! "1.2.3.4:2301" = Some 10 ∧
  Entries s' !! "1.2.3.4:2301" = Some 12 ∧
  10 <= 12.
Proof.
  intros s s'. split; [reflexivity|]. split; [reflexivity|].
  apply (proj1 (no_timestamp_decrease demo_cfg (10 * time.Second) s
                  (12 * time.Second) (OpReport "1.2.3.4" 2301)
                  (reachable_step demo_cfg 0 (NewServerList demo_cfg)
                     (10 * time.Second) (OpReport "1.2.3.4" 2301)
                     (reachable_new demo_cfg 0)
                     ltac:(by vm_compute))
                  ltac:(by vm_compute))
               "1.2.3.4:2301" 10 12); reflexivity.
Defined.

(** ** Printing and reading back a port *)

Lemma digit_char_spec d :
  0 <= d <= 9 →
  is_digit (digit_char d) = true ∧ byte_of (digit_char d) - 48 = d.
Proof.
  intros H.
  assert (d = 0 ∨ d = 1 ∨ d = 2 ∨ d = 3 ∨ d = 4 ∨ d = 5 ∨ d = 6 ∨ d = 7 ∨
          d = 8 ∨ d = 9) as Hd by lia.
  repeat (destruct Hd as [->|Hd]; [by vm_compute|]). subst d. by vm_compute.
Qed.

(** Reading the digits that [digits_go] printed in front of [acc] shifts
    the number read so far and adds [n]. *)
Lemma digits_go_parse fuel n acc :
  0 <= n < 10 ^ Z.of_nat fuel →
  ∃ k, 0 <= k ∧
    ∀ a, parse_digits (digits_go fuel n acc) a = parse_digits acc (a * 10 ^ k + n).
Proof.
  revert n acc. induction fuel as [|fuel IH]; intros n acc Hn.
  - exists 0. split; [done|]. intros a. simpl in *.
    f_equal; lia.
  - rewrite Nat2Z.inj_succ, Z.pow_succ_r in Hn by lia.
    destruct (digit_char_spec (n `mod` 10)) as [Hdig Hval];
      [pose proof (Z.mod_pos_bound n 10); lia|].
    simpl. destruct (Z.ltb_spec n 10) as [Hlt|Hge].
    + exists 1. split; [done|]. intros a. simpl. rewrite Hdig, Hval.
      rewrite Z.mod_small by lia. f_equal; lia.
    + destruct (IH (n `div` 10) (String (digit_char (n `mod` 10)) acc))
        as (k & Hk & Hparse).
      { split; [apply Z.div_pos; lia|]. apply Z.div_lt_upper_bound; lia. }
      exists (Z.succ k). split; [lia|]. intros a.
      rewrite Hparse. simpl. rewrite Hdig, Hval. f_equal.
      rewrite Z.pow_succ_r by done.
      pose proof (Z.div_mod n 10). lia.
Qed.

Lemma digits_go_head fuel n acc :
  0 <= n →
  ∃ c rest, digits_go (S fuel) n acc = String c rest ∧ is_digit c = true.
Proof.
  revert n acc. induction fuel as [|fuel IH]; intros n acc Hn.
  - simpl. exists (digit_char (n `mod` 10)), acc.
    split; [by destruct (n <? 10)|].
    apply digit_char_spec. pose proof (Z.mod_pos_bound n 10). lia.
  - change (digits_go (S (S fuel)) n acc) with
      (if n <? 10 then String (digit_char (n `mod` 10)) acc
       else digits_go (S fuel) (n `div` 10) (String (digit_char (n `mod` 10)) acc)).
    destruct (n <? 10).
    + exists (digit_char (n `mod` 10)), acc. split; [done|].
      apply digit_char_spec. pose proof (Z.mod_pos_bound n 10). lia.
    + apply IH. apply Z.div_pos; lia.
Qed.

(** [strconv.Atoi] reads back what [%d] prints. *)
Lemma Atoi_itoa n : 0 <= n < 2 ^ 63 → Atoi (itoa n) = Some n.
Proof.
  intros Hn. unfold itoa.
  destruct (Z.ltb_spec n 0) as [?|_]; [lia|].
  destruct (digits_go_head 19 n "") as (c & rest & Heq & Hc); [lia|].
  destruct (digits_go_parse 20 n "") as (k & _ & Hparse).
  { assert (10 ^ Z.of_nat 20 = 100000000000000000000) as -> by reflexivity. lia. }
  specialize (Hparse 0). rewrite Heq in Hparse |- *. unfold Atoi.
  destruct (Ascii.eqb_spec c "-") as [->|_]; [by vm_compute in Hc|].
  destruct (Ascii.eqb_spec c "+") as [->|_]; [by vm_compute in Hc|].
  rewrite Hparse. simpl.
  rewrite bool_decide_true; [done|]. unfold int64_range. lia.
Qed.

(** ** Splitting a key again *)

Lemma append_nil_l (s : string) : "" +:+ s = s.
Proof. reflexivity. Qed.

Lemma append_cons (c : ascii) (s t : string) :
  String c s +:+ t = String c (s +:+ t).
Proof. reflexivity. Qed.

Lemma all_digits_no_colon s d : all_digits (s +:+ String ":" d) = false.
Proof.
  induction s as [|c s IH].
  - reflexivity.
  - rewrite append_cons. simpl. rewrite IH. apply andb_false_r.
Qed.

Lemma digits_go_all_digits fuel n acc :
  0 <= n → all_digits acc = true → all_digits (digits_go fuel n acc) = true.
Proof.
  revert n acc. induction fuel as [|fuel IH]; intros n acc Hn Hacc; [done|].
  assert (all_digits (String (digit_char (n `mod` 10)) acc) = true) as Hstep.
  { simpl. rewrite Hacc, andb_true_r. apply digit_char_spec.
    pose proof (Z.mod_pos_bound n 10). lia. }
  simpl. destruct (n <? 10); [exact Hstep|].
  apply IH; [apply Z.div_pos; lia|exact Hstep].
Qed.












(** ** The admission path *)

Section AdmissionProperties.
Context (ParseIP : string → option (list Z)).

(** The handler either leaves the state alone, or it has passed every
    check and performs exactly one [Report]. *)
Lemma report_php_inv cfg a r now a' resp :
  report_php ParseIP cfg a r now = (a', resp) →
  a' = a ∨
  ∃ ip p port,
    SplitHostPort (RemoteAddr r) = Some (ip, p) ∧
    default false (Blacklist cfg !! ip) = false ∧
    is_Some (ParseIP ip) ∧ 1024 <= port <= 65535 ∧
    otherwise_valid cfg r ∧
    a' = {| servers := Report (servers a) ip port now;
            rateLimitMap := rateLimitMap a |} ∧
    resp = WriteHeader StatusOK.
Proof.
  unfold report_php. intros H.
  repeat (case_bool_decide || case_match); simplify_eq; auto.
  right. eexists _, _, _. split_and!; eauto; try lia.
  split; [done|]. split; [done|].
  eexists _, _. split_and!; eauto; lia.
Qed.

Lemma securityMiddleware_servers (next : Handler) a r t_rl now :
  (∀ a0 r0 t, servers (next a0 r0 t).1 = servers a0) →
  servers (securityMiddleware next a r t_rl now).1 = servers a.
Proof.
  intros Hnext. unfold securityMiddleware.
  destruct (SplitHostPort (RemoteAddr r)) as [[ip p]|]; [|done].
  destruct (checkRateLimit (rateLimitMap a) ip t_rl) as [[] rl']; [|done].
  by rewrite Hnext.
Qed.

(** What the endpoint does to the registry: nothing, or one [Report] of
    a request that passed every check. *)
Lemma report_endpoint_servers cfg a r t_rl now :
  servers (report_endpoint ParseIP cfg a r t_rl now).1 = servers a ∨
  ∃ ip p port,
    SplitHostPort (RemoteAddr r) = Some (ip, p) ∧
    default false (Blacklist cfg !! ip) = false ∧
    is_Some (ParseIP ip) ∧ 1024 <= port <= 65535 ∧
    otherwise_valid cfg r ∧
    servers (report_endpoint ParseIP cfg a r t_rl now).1
      = Report (servers a) ip port now.
Proof.
  unfold report_endpoint, securityMiddleware.
  destruct (SplitHostPort (RemoteAddr r)) as [[ip0 p0]|] eqn:Hsplit; [|by left].
  destruct (checkRateLimit (rateLimitMap a) ip0 t_rl) as [[] rl']; [|by left].
  destruct (report_php ParseIP cfg _ r now) as [a' resp] eqn:Hphp.
  apply report_php_inv in Hphp as [->|(ip & p & port & ? & ? & ? & ? & ? & -> & _)];
    [by left|].
  right. exists ip, p, port. split_and!; try done; try lia. congruence.
Qed.

Lemma app_run_snoc cfg es e :
  app_run ParseIP cfg (es ++ [e]) = app_step ParseIP cfg (app_run ParseIP cfg es) e.
Proof. unfold app_run. by rewrite foldl_app. Qed.

End AdmissionProperties.



Lemma ipv4_fields_plain s val digLen fields c :
  is_Some (ipv4_fields s val digLen fields) →
  is_digit c = false → c ≠ "."%char → IndexByte s c = None.
Proof.
  intros Hsome Hc Hdot. revert val digLen fields Hsome.
  induction s as [|a s IH]; intros val digLen fields Hsome; [done|].
  simpl in *. destruct (is_digit a) eqn:Ha.
  - destruct (Ascii.eqb_spec a c) as [->|_]; [congruence|].
    repeat case_bool_decide; try by destruct Hsome.
    by rewrite (IH _ _ _ Hsome).
  - destruct (Ascii.eqb_spec a ".") as [->|_]; [|by destruct Hsome].
    destruct (Ascii.eqb_spec "." c) as [<-|_]; [done|].
    case_bool_decide; [by destruct Hsome|].
    by rewrite (IH _ _ _ Hsome).
Qed.

(** Every dotted-decimal IPv4 literal is a plain host. *)
Lemma ParseIPv4_plain_host host : is_Some (ParseIPv4 host) → plain_host host.
Proof.
  intros H. unfold plain_host.
  split_and!; by apply (ipv4_fields_plain host 0 0 []).
Qed.

(** For an IPv6 source the host is stored without brackets: the key is
    host, colon, port, but [net.SplitHostPort] would not split it again. *)
Remark ipv6_key_not_resplit : SplitHostPort (host_port "::1" 2301) = None.
Proof. reflexivity. Qed.

Section SourceChecks.
Context (ParseIP : string → option (list Z)).

Lemma otherwise_valid_report_php cfg a r now :
  otherwise_valid cfg r →
  report_php ParseIP cfg a r now =
    match SplitHostPort (RemoteAddr r) with
    | None => (a, WriteHeader StatusOK)
    | Some (ip, _) =>
        if default false (Blacklist cfg !! ip) then (a, WriteHeader StatusOK)
        else
          match ParseIP ip with
          | None => (a, http_Error "Invalid IP address" StatusBadRequest)
          | Some _ =>
              ({| servers :=
                    Report (servers a) ip
                      (default 0 (Atoi (FormValue (default [] (ParseForm r)) "port")))
                      now;
                  rateLimitMap := rateLimitMap a |},
               WriteHeader StatusOK)
          end
    end.
Proof.
  intros (Hm & Hua & form & port & Hform & Hne & Hport & Hrange).
  unfold report_php. rewrite Hform. simpl. rewrite Hport. simpl.
  rewrite !bool_decide_false; [done|lia|done|by intros []|by intros []].
Qed.

(** C9, as the code has it.  For a request that passes the method,
    identifier and port checks:
    - the handler closure on its own acknowledges with 200, and calls no
      [Report], when the source address does not split or its host is
      blacklisted;
    - the endpoint as registered, behind [securityMiddleware], answers a
      source address that does not split with 400;
    - for a blacklisted host the endpoint leaves the registry alone and
      answers 200, unless the rate limiter refuses the request with 429;
    - a host that is not blacklisted and that [ParseIP] rejects leaves
      the registry alone as well. *)
Theorem report_source_checks cfg a r t_rl now :
  otherwise_valid cfg r →
  let out := report_endpoint ParseIP cfg a r t_rl now in
  ((SplitHostPort (RemoteAddr r) = None ∨
    ∃ ip p, SplitHostPort (RemoteAddr r) = Some (ip, p) ∧
            Blacklist cfg !! ip = Some true) →
   report_php ParseIP cfg a r now = (a, WriteHeader StatusOK)) ∧
  (SplitHostPort (RemoteAddr r) = None →
   out = (a, http_Error "Invalid request" StatusBadRequest)) ∧
  (∀ ip p,
     SplitHostPort (RemoteAddr r) = Some (ip, p) →
     Blacklist cfg !! ip = Some true →
     servers out.1 = servers a ∧
     out.2 = if (checkRateLimit (rateLimitMap a) ip t_rl).1
             then WriteHeader StatusOK
             else http_Error "Rate limit exceeded" StatusTooManyRequests) ∧
  (∀ ip p,
     SplitHostPort (RemoteAddr r) = Some (ip, p) →
     ParseIP ip = None →
     servers out.1 = servers a).
Proof.
  intros Hvalid out. split_and!.
  - rewrite otherwise_valid_report_php by done.
    intros [->|(ip & p & -> & Hbl)]; [done|]. by rewrite Hbl.
  - intros Hsplit. unfold out, report_endpoint, securityMiddleware.
    by rewrite Hsplit.
  - intros ip p Hsplit Hbl. unfold out, report_endpoint, securityMiddleware.
    rewrite Hsplit.
    destruct (checkRateLimit (rateLimitMap a) ip t_rl) as [[] rl']; [|done].
    rewrite otherwise_valid_report_php, Hsplit, Hbl by done. done.
  - intros ip p Hsplit Hip. unfold out, report_endpoint, securityMiddleware.
    rewrite Hsplit.
    destruct (checkRateLimit (rateLimitMap a) ip t_rl) as [[] rl']; [|done].
    rewrite otherwise_valid_report_php, Hsplit, Hip by done.
    by destruct (default false (Blacklist cfg !! ip)).
Qed.
End SourceChecks.

Lemma report_source_checks_witness :
  otherwise_valid demo_cfg blacklisted_request ∧
  SplitHostPort (RemoteAddr blacklisted_request) = Some ("6.6.6.6", "50000") ∧
  Blacklist demo_cfg !! "6.6.6.6" = Some true ∧
  report_endpoint ParseIPv4 demo_cfg (main_init demo_cfg) blacklisted_request 0 0
    = ({| servers := NewServerList demo_cfg;
          rateLimitMap := {["6.6.6.6" := [0]]} |}, WriteHeader StatusOK) ∧
  report_php ParseIPv4 demo_cfg (main_init demo_cfg) blacklisted_request 0
    = (main_init demo_cfg, WriteHeader StatusOK).
Proof.
  assert (otherwise_valid demo_cfg blacklisted_request) as Hvalid.
  { split; [reflexivity|]. split; [reflexivity|].
    exists [("port", "2301")], 2301. split_and!; by vm_compute. }
  split; [exact Hvalid|]. split; [reflexivity|]. split; [reflexivity|].
  split; [by vm_compute|].
  apply (proj1 (report_source_checks ParseIPv4 demo_cfg (main_init demo_cfg)
                  blacklisted_request 0 0 Hvalid)).
  right. exists "6.6.6.6", "50000". split; reflexivity.
Defined.

(** C9, as stated, fails for a malformed source address: the request is
    answered by the middleware with 400, not 200. *)
Lemma malformed_source_counterexample :
  ¬ (∀ (ParseIP : string → option (list Z)) cfg a r t_rl now,
       otherwise_valid cfg r →
       (SplitHostPort (RemoteAddr r) = None ∨
        ∃ ip p, SplitHostPort (RemoteAddr r) = Some (ip, p) ∧
                Blacklist cfg !! ip = Some true) →
       StatusCode (report_endpoint ParseIP cfg a r t_rl now).2 = StatusOK ∧
       servers (report_endpoint ParseIP cfg a r t_rl now).1 = servers a).
Proof.
  intros H.
  destruct (H ParseIPv4 demo_cfg (main_init demo_cfg) malformed_source_request 0 0)
    as [Hstatus _].
  - split; [reflexivity|]. split; [reflexivity|].
    exists [("port", "2301")], 2301. split_and!; by vm_compute.
  - left. reflexivity.
  - vm_compute in Hstatus. discriminate.
Qed.

(** ** [loadConfig] *)

Lemma result_bind {A B} (m : IO A) (k : A → IO B) :
  result (m ≫= k) = result (k (result m)).
Proof.
  destruct m as [a t1]. unfold result, mbind, io_bind. simpl.
  by destruct (k a).
Qed.

Lemma trace_bind {A B} (m : IO A) (k : A → IO B) :
  trace (m ≫= k) = trace m ++ trace (k (result m)).
Proof.
  destruct m as [a t1]. unfold trace, result, mbind, io_bind. simpl.
  by destruct (k a).
Qed.

Ltac io_simpl :=
  repeat (rewrite ?result_bind, ?trace_bind; simpl).

Section LoadConfigProperties.
Context (ParseIP : string → option (list Z))
        (Clean : string → string)
        (IsAbs : string → bool)
        (Dir : string → string)
        (Unmarshal : string → option jsonConfig)
        (MarshalIndent : jsonConfig → option string)
        (ParseDuration : string → option time.Duration)
        (TrimSpace : string → string).

Abbreviation read_file := (secureReadFile Clean IsAbs).
Abbreviation write_file := (secureWriteFile Clean Dir).
Abbreviation create_default := (create_default_config Clean Dir MarshalIndent).
Abbreviation load :=
  (loadConfig ParseIP Clean IsAbs Dir Unmarshal MarshalIndent ParseDuration TrimSpace).

(** Reading and writing files does not look at the environment. *)
Lemma secureReadFile_env os env path maxSize :
  read_file (with_Getenv os env) path maxSize = read_file os path maxSize.
Proof. reflexivity. Qed.

Lemma secureReadFile_no_Getenv os path maxSize :
  no_Getenv (trace (read_file os path maxSize)).
Proof.
  unfold secureReadFile, no_Getenv.
  repeat (case_bool_decide || case_match || io_simpl);
    repeat constructor.
Qed.

Lemma secureWriteFile_no_Getenv os path data perm :
  no_Getenv (trace (write_file os path data perm)).
Proof.
  unfold secureWriteFile, no_Getenv.
  repeat (case_bool_decide || case_match || io_simpl);
    repeat constructor.
Qed.

Lemma create_default_config_result os path :
  result (create_default os path) = defaultCfg.
Proof.
  unfold create_default_config. io_simpl.
  destruct (MarshalIndent _); by io_simpl.
Qed.

Lemma create_default_config_no_Getenv os path :
  no_Getenv (trace (create_default os path)).
Proof.
  unfold create_default_config, no_Getenv. io_simpl.
  destruct (MarshalIndent _); io_simpl; [|repeat constructor].
  constructor; [done|]. apply Forall_app. split.
  - apply secureWriteFile_no_Getenv.
  - destruct (result _); repeat constructor.
Qed.

(** C10. If the config file is missing, or cannot be read, or does not
    parse (or the path is refused), then in every environment
    [loadConfig] returns [defaultCfg] and reads no environment variable.
    Hence two environments lead to different configurations only when
    the file has been read and parsed. *)
Theorem loadConfig_defaults os configPath :
  let path := Clean configPath in
  let data := result (read_file os path maxConfigFileSize) in
  (Contains path ".." = true ∨
   Stat os path = StatNotExist ∨
   data = None ∨
   (∃ d, data = Some d ∧ Unmarshal d = None) →
   ∀ env,
     result (load (with_Getenv os env) configPath) = defaultCfg ∧
     no_Getenv (trace (load (with_Getenv os env) configPath))) ∧
  (∀ env1 env2,
     result (load (with_Getenv os env1) configPath) ≠
     result (load (with_Getenv os env2) configPath) →
     Contains path ".." = false ∧
     Stat os path ≠ StatNotExist ∧
     ∃ d j, data = Some d ∧ Unmarshal d = Some j).
Proof.
  intros path data.
  assert (Contains path ".." = true ∨ Stat os path = StatNotExist ∨
          data = None ∨ (∃ d, data = Some d ∧ Unmarshal d = None) →
          ∀ env,
            result (load (with_Getenv os env) configPath) = defaultCfg ∧
            no_Getenv (trace (load (with_Getenv os env) configPath)))
    as Hdefault.
  { intros Hfail env. unfold loadConfig. fold path.
    destruct (Contains path "..") eqn:Hdots.
    { split; [done|repeat constructor]. }
    io_simpl.
    destruct (Stat os path) eqn:Hstat.
    2: { rewrite create_default_config_result. split; [done|].
         constructor; [done|]. apply create_default_config_no_Getenv. }
    all: rewrite result_bind, trace_bind, secureReadFile_env; fold data.
    all: assert (data = None ∨ ∃ d, data = Some d ∧ Unmarshal d = None)
           as [->|(d & -> & ->)] by (destruct Hfail as [?|[?|?]]; done).
    all: split; [done|]; constructor; [done|]; apply Forall_app.
    all: split; [apply secureReadFile_no_Getenv|repeat constructor]. }
  split; [exact Hdefault|].
  intros env1 env2 Hne.
  destruct (Contains path "..") eqn:Hdots.
  { destruct Hne. by rewrite !(proj1 (Hdefault (or_introl eq_refl) _)). }
  split; [done|].
  assert (Stat os path = StatNotExist ∨ Stat os path ≠ StatNotExist)
    as [Hstat|Hstat] by (destruct (Stat os path); [right|left|right]; done).
  { destruct Hne. by rewrite !(proj1 (Hdefault (or_intror (or_introl Hstat)) _)). }
  split; [done|].
  destruct data as [d|] eqn:Hdata.
  - destruct (Unmarshal d) as [j|] eqn:Hj; [by exists d, j|].
    destruct Hne.
    assert (∃ d0, Some d = Some d0 ∧ Unmarshal d0 = None) as Hex by eauto.
    by rewrite !(proj1 (Hdefault (or_intror (or_intror (or_intror Hex))) _)).
  - destruct Hne.
    by rewrite !(proj1 (Hdefault (or_intror (or_intror (or_introl eq_refl))) _)).
Qed.
End LoadConfigProperties.

Lemma loadConfig_defaults_witness :
  let load := loadConfig ParseIPv4 demo_Clean demo_IsAbs demo_Dir demo_Unmarshal
                demo_MarshalIndent demo_ParseDuration demo_TrimSpace in
  let os := with_Getenv empty_os (Getenv demo_os) in
  Stat empty_os (demo_Clean "config.json") = StatNotExist ∧
  Getenv os "LUSD_PORT" = "8080" ∧
  result (load os "config.json") = defaultCfg ∧
  no_Getenv (trace (load os "config.json")).
Proof.
  intros load os. split; [reflexivity|]. split; [reflexivity|].
  apply (proj1 (loadConfig_defaults ParseIPv4 demo_Clean demo_IsAbs demo_Dir
                  demo_Unmarshal demo_MarshalIndent demo_ParseDuration
                  demo_TrimSpace empty_os "config.json")).
  right. left. reflexivity.
Defined.

(** With the file in place the same override is applied: the port of the
    file is invalid and replaced by the default 80, which [LUSD_PORT] then
    overrides; without the variable the default stays. *)
Example loadConfig_override_applied :
  let load := loadConfig ParseIPv4 demo_Clean demo_IsAbs demo_Dir demo_Unmarshal
                demo_MarshalIndent demo_ParseDuration demo_TrimSpace in
  Port (result (load demo_os "config.json")) = 8080 ∧
  Port (result (load (with_Getenv demo_os (Getenv empty_os)) "config.json")) = 80 ∧
  EGetenv "LUSD_PORT" ∈ trace (load demo_os "config.json").
Proof.
  split; [by vm_compute|]. split; [by vm_compute|].
  vm_compute. repeat (apply list_elem_of_here || apply list_elem_of_further).
Qed.

(* ================================================================= *)
(** * Further properties of the code *)

(** ** Registry keys *)

Lemma colon_split_unique s1 s2 d1 d2 :
  all_digits d1 = true → all_digits d2 = true →
  s1 +:+ String ":" d1 = s2 +:+ String ":" d2 → s1 = s2 ∧ d1 = d2.
Proof.
  intros H1 H2. revert s2. induction s1 as [|c1 s1 IH]; intros [|c2 s2] Heq.
  - rewrite !append_nil_l in Heq. by simplify_eq.
  - rewrite append_nil_l, append_cons in Heq.
    injection Heq as _ Heq. rewrite Heq, all_digits_no_colon in H1. done.
  - rewrite append_nil_l, append_cons in Heq.
    injection Heq as _ Heq. rewrite <- Heq, all_digits_no_colon in H2. done.
  - rewrite !append_cons in Heq. injection Heq as -> Heq.
    destruct (IH s2 Heq) as [-> ->]. done.
Qed.

Lemma host_port_eq_inv ip1 port1 ip2 port2 :
  0 <= port1 < 2 ^ 63 → 0 <= port2 < 2 ^ 63 →
  host_port ip1 port1 = host_port ip2 port2 →
  ip1 = ip2 ∧ port1 = port2.
Proof.
  intros Hp1 Hp2 Heq. unfold host_port in Heq.
  change (ip1 +:+ String ":" (itoa port1) = ip2 +:+ String ":" (itoa port2)) in Heq.
  assert (∀ n, 0 <= n → all_digits (itoa n) = true) as Hdigits.
  { intros n Hn. unfold itoa. destruct (Z.ltb_spec n 0); [lia|].
    by apply digits_go_all_digits. }
  apply colon_split_unique in Heq as [-> Hitoa]; [|apply Hdigits; lia..].
  split; [done|].
  pose proof (Atoi_itoa port1 Hp1) as Ha1. rewrite Hitoa, Atoi_itoa in Ha1 by done.
  by injection Ha1.
Qed.

(** X1. Distinct pairs of host and (non-negative) port never share a key of
    the registration mapping: the key [Report] builds determines both. *)
Theorem host_port_inj ip1 port1 ip2 port2 :
  0 <= port1 < 2 ^ 63 → 0 <= port2 < 2 ^ 63 →
  host_port ip1 port1 = host_port ip2 port2 →
  ip1 = ip2 ∧ port1 = port2.
Proof. apply host_port_eq_inv. Qed.

Lemma host_port_inj_witness :
  host_port "5.6.7.8" 3000 = host_port "5.6.7.8" 3000 ∧
  ("5.6.7.8" = "5.6.7.8" ∧ 3000 = 3000).
Proof.
  split; [reflexivity|].
  apply (host_port_inj "5.6.7.8" 3000 "5.6.7.8" 3000);
    [split; by vm_compute|split; by vm_compute|reflexivity].
Defined.

(** ** Sweeps *)

Lemma cleanupTick_max s t1 t2 :
  cleanupTick (cleanupTick s t1) t2 = cleanupTick s (Z.max t1 t2).
Proof.
  apply ServerList_eq; [|done].
  apply map_eq. intros a. apply option_eq. intros ts.
  rewrite !cleanupTick_lookup_Some, cleanupTick_Config.
  pose proof (cutoff_mono (SLConfig s) t1 (Z.max t1 t2) (Z.le_max_l _ _)).
  pose proof (cutoff_mono (SLConfig s) t2 (Z.max t1 t2) (Z.le_max_r _ _)).
  destruct (Z.max_spec t1 t2) as [[? Hmax]|[? Hmax]]; rewrite Hmax in *;
    intuition lia.
Qed.

(** X2. Any number of sweep passes in a row, at whatever instants and in
    whatever order, leave the state that a single pass at the latest of
    those instants leaves. *)
Theorem sweeps_collapse s t ticks :
  sweeps s (t :: ticks) = cleanupTick s (latest t ticks).
Proof.
  unfold sweeps, latest. simpl. revert t.
  induction ticks as [|t' ticks IH]; intros t; [done|].
  simpl. by rewrite cleanupTick_max, IH.
Qed.

(** X3. In a state reached from [NewServerList] with a clock that never
    runs backwards, no stored timestamp lies in the future, and the
    configuration is still the one the registry was created with. *)
Theorem timestamps_not_in_future cfg t s addr ts :
  reachable cfg t s → Entries s !! addr = Some ts →
  ts <= time.Unix t ∧ SLConfig s = cfg.
Proof.
  intros Hreach Hts. split; [by eapply reachable_timestamps|].
  clear Hts. induction Hreach as [|t s t' op _ IH _]; [done|].
  by rewrite step_Config.
Qed.

Lemma timestamps_not_in_future_witness :
  let s := step (NewServerList demo_cfg) (10 * time.Second) (OpReport "1.2.3.4" 2301) in
  Entries s !! "1.2.3.4:2301" = Some 10 ∧
  10 <= time.Unix (10 * time.Second) ∧ SLConfig s = demo_cfg.
Proof.
  intros s. split; [reflexivity|].
  apply (timestamps_not_in_future demo_cfg (10 * time.Second) s "1.2.3.4:2301" 10).
  - apply (reachable_step demo_cfg 0 (NewServerList demo_cfg)
             (10 * time.Second) (OpReport "1.2.3.4" 2301)
             (reachable_new demo_cfg 0)).
    by vm_compute.
  - reflexivity.
Defined.

(** ** How reports and sweeps compose *)

(** X15. Two reports of different servers (another host or another port)
    never overwrite each other: after both, each server's entry holds the
    Unix second that its own call read, and every other entry is as it
    was. *)
Theorem Report_both_kept s ip1 port1 t1 ip2 port2 t2 :
  0 <= port1 < 2 ^ 63 → 0 <= port2 < 2 ^ 63 →
  ip1 ≠ ip2 ∨ port1 ≠ port2 →
  let s' := Report (Report s ip1 port1 t1) ip2 port2 t2 in
  Entries s' !! host_port ip1 port1 = Some (time.Unix t1) ∧
  Entries s' !! host_port ip2 port2 = Some (time.Unix t2) ∧
  (∀ k, k ≠ host_port ip1 port1 → k ≠ host_port ip2 port2 →
        Entries s' !! k = Entries s !! k).
Proof.
  intros Hp1 Hp2 Hne s'.
  assert (host_port ip1 port1 ≠ host_port ip2 port2) as Hkeys.
  { intros [? ?]%host_port_eq_inv; [|done..]. destruct Hne; done. }
  subst s'. split_and!.
  - rewrite Report_lookup_ne by done. apply Report_lookup_eq.
  - apply Report_lookup_eq.
  - intros k Hk1 Hk2. by rewrite !Report_lookup_ne.
Qed.

Lemma Report_both_kept_witness :
  let s' := Report (Report (NewServerList demo_cfg) "5.6.7.8" 3000 0)
                   "5.6.7.8" 3001 (2 * time.Second) in
  Entries s' !! host_port "5.6.7.8" 3000 = Some (time.Unix 0) ∧
  Entries s' !! host_port "5.6.7.8" 3001 = Some (time.Unix (2 * time.Second)).
Proof.
  intros s'.
  destruct (Report_both_kept (NewServerList demo_cfg) "5.6.7.8" 3000 0
              "5.6.7.8" 3001 (2 * time.Second)) as (H1 & H2 & _).
  - split; by vm_compute.
  - split; by vm_compute.
  - right. by vm_compute.
  - split; [exact H1|exact H2].
Defined.

(** X16. A sweep does not touch an entry whose timestamp is at least its
    cutoff: reporting and then sweeping leaves the state that sweeping and
    then reporting leaves, whenever the reported second is not older than
    the cutoff of the sweep. *)
Theorem Report_cleanupTick_commute s ip port t now :
  cutoff (SLConfig s) now <= time.Unix t →
  cleanupTick (Report s ip port t) now = Report (cleanupTick s now) ip port t.
Proof.
  intros Hfresh. apply ServerList_eq; [|done].
  apply map_eq. intros a. apply option_eq. intros ts.
  rewrite cleanupTick_lookup_Some.
  change (SLConfig (Report s ip port t)) with (SLConfig s).
  change (Entries (Report s ip port t))
    with (<[host_port ip port := time.Unix t]> (Entries s)).
  change (Entries (Report (cleanupTick s now) ip port t))
    with (<[host_port ip port := time.Unix t]> (Entries (cleanupTick s now))).
  rewrite !lookup_insert_Some, cleanupTick_lookup_Some.
  split.
  - intros [[[-> <-]|[? ?]] ?]; auto.
  - intros [[-> <-]|(? & ? & ?)]; auto.
Qed.

Lemma Report_cleanupTick_commute_witness :
  cutoff demo_cfg (90 * time.Second) <= time.Unix (60 * time.Second) ∧
  cleanupTick (Report demo_state "1.2.3.4" 2301 (60 * time.Second)) (90 * time.Second)
  = Report (cleanupTick demo_state (90 * time.Second)) "1.2.3.4" 2301 (60 * time.Second).
Proof.
  split; [by vm_compute|].
  apply (Report_cleanupTick_commute demo_state "1.2.3.4" 2301 (60 * time.Second)
           (90 * time.Second)).
  by vm_compute.
Defined.

(** X18. Without new reports the snapshot only shrinks as time passes: an
    address listed at a later instant was listed at every earlier one, so
    no address comes back without being reported again. *)
Theorem GetActive_shrinks s now now' addr :
  now <= now' → addr ∈ GetActive s now' → addr ∈ GetActive s now.
Proof.
  intros Hle. rewrite !GetActive_elem_of. unfold in_active_set.
  pose proof (cutoff_mono (SLConfig s) now now' Hle).
  intros [(ts & ? & ?)|?]; [left; exists ts; split; [done|lia]|by right].
Qed.

Lemma GetActive_shrinks_witness :
  0 <= 30 * time.Second ∧
  "1.2.3.4:2301" ∈ GetActive (Report (NewServerList demo_cfg) "1.2.3.4" 2301 0) 0.
Proof.
  split; [by vm_compute|].
  apply (GetActive_shrinks (Report (NewServerList demo_cfg) "1.2.3.4" 2301 0)
           0 (30 * time.Second) "1.2.3.4:2301"); [by vm_compute|].
  assert (GetActive (Report (NewServerList demo_cfg) "1.2.3.4" 2301 0)
            (30 * time.Second) = ["1.2.3.4:2301"; "10.0.0.1:9000"]) as ->
    by (by vm_compute).
  apply list_elem_of_here.
Defined.

(** X19. Sweeps are invisible to readers: whatever sweep passes have run
    before a snapshot is taken, at whatever earlier instants, the snapshot
    is the one that would have been returned without them. *)
Theorem sweeps_unobservable s ticks now :
  Forall (λ t, t <= now) ticks →
  GetActive (sweeps s ticks) now = GetActive s now.
Proof.
  intros Hticks. apply GetActive_ext. intros a. unfold in_active_set.
  rewrite sweeps_Config. setoid_rewrite sweeps_lookup_Some. split.
  - intros [(ts & [? _] & ?)|?]; [left; eauto|by right].
  - intros [(ts & ? & ?)|?]; [left|by right].
    exists ts. split; [|done]. split; [done|].
    eapply Forall_impl; [exact Hticks|]. intros t Ht. simpl in Ht.
    etrans; [by apply cutoff_mono|done].
Qed.

Lemma sweeps_unobservable_witness :
  GetActive (sweeps demo_state [60 * time.Second; 100 * time.Second]) demo_now
  = GetActive demo_state demo_now.
Proof.
  apply (sweeps_unobservable demo_state [60 * time.Second; 100 * time.Second] demo_now).
  repeat constructor; by vm_compute.
Defined.

(** ** The rate limiter *)

Lemma requests_in_nil m : requests_in m [] = 0.
Proof. reflexivity. Qed.

Lemma requests_in_app m l1 l2 :
  requests_in m (l1 ++ l2) = requests_in m l1 + requests_in m l2.
Proof. unfold requests_in. rewrite filter_app, length_app. lia. Qed.

Lemma requests_in_singleton m v :
  requests_in m [v] = if bool_decide (v = m) then 1 else 0.
Proof.
  unfold requests_in. case_bool_decide.
  - by rewrite filter_cons_True.
  - by rewrite filter_cons_False.
Qed.

Lemma requests_in_cons m v l :
  requests_in m (v :: l) = (if bool_decide (v = m) then 1 else 0) + requests_in m l.
Proof.
  change (v :: l) with ([v] ++ l).
  by rewrite requests_in_app, requests_in_singleton.
Qed.

Lemma requests_in_nonneg m l : 0 <= requests_in m l.
Proof. unfold requests_in. lia. Qed.

Lemma requests_in_filter_le m (P : Z → Prop) `{∀ x, Decision (P x)} l :
  requests_in m (filter P l) <= requests_in m l.
Proof.
  induction l as [|v l IH]; [done|].
  destruct (decide (P v)).
  - rewrite filter_cons_True, !requests_in_cons by done. lia.
  - rewrite filter_cons_False, requests_in_cons by done. case_bool_decide; lia.
Qed.

(** Pruning the minutes before [minute - 1] does not change the count for
    [minute]. *)
Lemma requests_in_pruned minute l :
  requests_in minute (filter (λ t, minute - 1 <= t) l) = requests_in minute l.
Proof.
  induction l as [|v l IH]; [done|].
  destruct (decide (minute - 1 <= v)).
  - rewrite filter_cons_True, !requests_in_cons by done. lia.
  - rewrite filter_cons_False, requests_in_cons by done.
    rewrite bool_decide_false by lia. lia.
Qed.

Lemma checkRateLimit_eq rl ip now :
  checkRateLimit rl ip now =
    if bool_decide (maxRequestsPerMinute
                      <= requests_in (minute_of now) (default [] (rl !! ip)))
    then (false,
          <[ip := filter (λ t, minute_of now - 1 <= t) (default [] (rl !! ip))]> rl)
    else (true,
          <[ip := filter (λ t, minute_of now - 1 <= t) (default [] (rl !! ip))
                  ++ [minute_of now]]> rl).
Proof.
  unfold checkRateLimit. fold (minute_of now).
  destruct (rl !! ip) as [times|] eqn:Hip; simpl.
  - fold (requests_in (minute_of now)
            (filter (λ t, minute_of now - 1 <= t) times)).
    rewrite requests_in_pruned.
    case_bool_decide; [done|].
    by rewrite lookup_insert_eq, insert_insert_eq.
  - reflexivity.
Qed.

Lemma checkRateLimit_other rl ip now ip' :
  ip' ≠ ip → (checkRateLimit rl ip now).2 !! ip' = rl !! ip'.
Proof.
  intros Hne. rewrite checkRateLimit_eq.
  case_bool_decide; simpl; by rewrite lookup_insert_ne.
Qed.

(** X4. [checkRateLimit] in closed form, whether or not the client is
    already known: the request is refused exactly when the client's list
    already records 60 requests for the current minute; the list is pruned
    of the minutes before the previous one in either case, and the current
    minute is recorded only for an accepted request. *)
Theorem checkRateLimit_closed_form rl ip now :
  let minute := minute_of now in
  let old := default [] (rl !! ip) in
  let kept := filter (λ t, minute - 1 <= t) old in
  checkRateLimit rl ip now =
    if bool_decide (60 <= requests_in minute old)
    then (false, <[ip := kept]> rl)
    else (true, <[ip := kept ++ [minute]]> rl).
Proof. apply checkRateLimit_eq. Qed.

(** X5. A call for one client leaves the lists of all other clients as
    they are, and no client is ever dropped from the map. *)
Theorem checkRateLimit_isolation rl ip now ip' :
  (ip' ≠ ip → (checkRateLimit rl ip now).2 !! ip' = rl !! ip') ∧
  (is_Some (rl !! ip') → is_Some ((checkRateLimit rl ip now).2 !! ip')).
Proof.
  split; [apply checkRateLimit_other|].
  rewrite checkRateLimit_eq.
  case_bool_decide; simpl; rewrite lookup_insert_is_Some'; auto.
Qed.

Lemma checkRateLimit_isolation_witness :
  let rl := (checkRateLimit ∅ "1.1.1.1" 0).2 in
  rl !! "1.1.1.1" = Some [0] ∧
  (checkRateLimit rl "2.2.2.2" (90 * time.Second)).2 !! "1.1.1.1" = Some [0].
Proof.
  intros rl. split; [by vm_compute|].
  rewrite (proj1 (checkRateLimit_isolation rl "2.2.2.2" (90 * time.Second) "1.1.1.1"));
    by vm_compute.
Defined.

Lemma minute_of_mono t t' : t <= t' → minute_of t <= minute_of t'.
Proof.
  intros H. unfold minute_of. apply Z.quot_le_mono; [lia|]. by apply Unix_mono.
Qed.

(** A list whose entries are all [m - 1] or [m] is as long as its counts
    for these two minutes together. *)
Lemma length_two_minutes m l :
  Forall (λ v, m - 1 <= v <= m) l →
  Z.of_nat (length l) = requests_in (m - 1) l + requests_in m l.
Proof.
  induction 1 as [|v l Hv _ IH]; [done|].
  rewrite !requests_in_cons. simpl length. rewrite Nat2Z.inj_succ, IH.
  repeat case_bool_decide; lia.
Qed.

Lemma limiter_invariant t rl ip times :
  limiter_reachable t rl → rl !! ip = Some times →
  (∀ m, requests_in m times <= maxRequestsPerMinute) ∧
  ∃ m0, m0 <= minute_of t ∧ Forall (λ v, m0 - 1 <= v <= m0) times.
Proof.
  intros Hreach. revert ip times.
  induction Hreach as [t|t rl ip0 t' Hreach IH Hle]; intros ip times.
  { by rewrite lookup_empty. }
  pose proof (minute_of_mono t t' Hle) as Hmin.
  destruct (decide (ip = ip0)) as [->|Hne].
  2: { rewrite (checkRateLimit_other rl ip0 t' ip) by done.
       intros Hl. destruct (IH ip times Hl) as (Hcount & m0 & Hm0 & Hwin).
       split; [done|]. exists m0. split; [lia|done]. }
  assert ((∀ m, requests_in m (default [] (rl !! ip0)) <= maxRequestsPerMinute) ∧
          Forall (λ v, v <= minute_of t) (default [] (rl !! ip0)))
    as [Hcount Hold].
  { destruct (rl !! ip0) as [old|] eqn:Hold; simpl.
    - destruct (IH ip0 old Hold) as (Hcount & m0 & Hm0 & Hwin).
      split; [done|]. eapply Forall_impl; [exact Hwin|]. simpl. lia.
    - split; [|done]. intros m. rewrite requests_in_nil.
      unfold maxRequestsPerMinute. lia. }
  assert (Forall (λ v, minute_of t' - 1 <= v <= minute_of t')
            (filter (λ t0, minute_of t' - 1 <= t0) (default [] (rl !! ip0))))
    as Hkept.
  { apply Forall_forall. intros v [Hv Hin]%list_elem_of_filter.
    rewrite Forall_forall in Hold. specialize (Hold v Hin). simpl in Hold. lia. }
  rewrite checkRateLimit_eq. simpl.
  case_bool_decide as Hfull; simpl.
  - rewrite lookup_insert_eq. intros [= <-]. split.
    + intros m. etrans; [apply requests_in_filter_le; apply _|apply Hcount].
    + exists (minute_of t'). split; [lia|done].
  - rewrite lookup_insert_eq. intros [= <-]. split.
    + intros m. rewrite requests_in_app, requests_in_singleton.
      pose proof (requests_in_filter_le m (λ t0, minute_of t' - 1 <= t0)
                    (default [] (rl !! ip0))).
      specialize (Hcount m).
      case_bool_decide as Hm; [|lia]. subst m. lia.
    + exists (minute_of t'). split; [lia|].
      apply Forall_app. split; [done|]. repeat constructor; lia.
Qed.

(** X6. With a clock that never runs backwards, the limiter never records
    more than 60 requests of one client for one minute, records no minute
    of the future, and never holds more than 120 entries for a client. *)
Theorem limiter_bounds t rl ip times :
  limiter_reachable t rl → rl !! ip = Some times →
  (∀ m, requests_in m times <= 60) ∧
  Forall (λ v, v <= minute_of t) times ∧
  Z.of_nat (length times) <= 120.
Proof.
  intros Hreach Hip.
  destruct (limiter_invariant t rl ip times Hreach Hip) as (Hcount & m0 & Hm0 & Hwin).
  split_and!; [exact Hcount| |].
  - eapply Forall_impl; [exact Hwin|]. simpl. lia.
  - rewrite (length_two_minutes m0) by done.
    pose proof (Hcount m0). pose proof (Hcount (m0 - 1)).
    unfold maxRequestsPerMinute in *. lia.
Qed.

Lemma limiter_bounds_witness :
  let rl := (checkRateLimit (checkRateLimit ∅ "1.1.1.1" 0).2 "1.1.1.1" (60 * time.Second)).2 in
  rl !! "1.1.1.1" = Some [0; 1] ∧
  (∀ m, requests_in m [0; 1] <= 60) ∧
  Forall (λ v, v <= minute_of (60 * time.Second)) [0; 1] ∧
  Z.of_nat (length [0; 1]) <= 120.
Proof.
  intros rl. split; [by vm_compute|].
  apply (limiter_bounds (60 * time.Second) rl "1.1.1.1" [0; 1]).
  - apply (limiter_step 0 _ "1.1.1.1" (60 * time.Second)
             (limiter_step 0 ∅ "1.1.1.1" 0 (limiter_new 0) ltac:(by vm_compute))
             ltac:(by vm_compute)).
  - by vm_compute.
Defined.

(** X17. [securityMiddleware] around any handler, for a request whose
    source address splits: if the client already has 60 requests recorded
    for the current minute the answer is 429 and the handler does not run;
    otherwise the handler runs, on the state in which this request has
    been recorded. *)
Theorem securityMiddleware_rate_limit (next : Handler) a r t_rl now ip p :
  SplitHostPort (RemoteAddr r) = Some (ip, p) →
  let minute := minute_of t_rl in
  let old := default [] (rateLimitMap a !! ip) in
  let kept := filter (λ t, minute - 1 <= t) old in
  securityMiddleware next a r t_rl now =
    if bool_decide (60 <= requests_in minute old)
    then ({| servers := servers a; rateLimitMap := <[ip := kept]> (rateLimitMap a) |},
          http_Error "Rate limit exceeded" 429)
    else next {| servers := servers a;
                 rateLimitMap := <[ip := kept ++ [minute]]> (rateLimitMap a) |}
              r now.
Proof.
  intros Hsplit minute old kept. unfold securityMiddleware.
  rewrite Hsplit, checkRateLimit_eq. fold minute old kept.
  change maxRequestsPerMinute with 60.
  by case_bool_decide.
Qed.

Lemma securityMiddleware_rate_limit_witness :
  let a := {| servers := NewServerList demo_cfg;
              rateLimitMap := {["1.2.3.4" := replicate 60 0]} |} in
  SplitHostPort (RemoteAddr demo_request) = Some ("1.2.3.4", "50000") ∧
  StatusCode (securityMiddleware (report_php ParseIPv4 demo_cfg) a demo_request
                (30 * time.Second) (30 * time.Second)).2 = 429 ∧
  servers (securityMiddleware (report_php ParseIPv4 demo_cfg) a demo_request
             (30 * time.Second) (30 * time.Second)).1 = NewServerList demo_cfg.
Proof.
  intros a. split; [reflexivity|].
  rewrite (securityMiddleware_rate_limit (report_php ParseIPv4 demo_cfg) a
             demo_request (30 * time.Second) (30 * time.Second)
             "1.2.3.4" "50000" eq_refl).
  split; by vm_compute.
Defined.

(** ** The endpoints *)

Section EndpointProperties.
Context (ParseIP : string → option (list Z)).

Lemma app_step_Config cfg a e :
  SLConfig (servers (app_step ParseIP cfg a e)) = SLConfig (servers a).
Proof.
  destruct e as [r t_rl now|r t_rl now|r t_rl now|now]; simpl.
  - destruct (report_endpoint_servers ParseIP cfg a r t_rl now)
      as [->|(ip & p & port & _ & _ & _ & _ & _ & ->)]; done.
  - rewrite securityMiddleware_servers; [done|].
    intros a0 r0 t. unfold servers_txt. by case_bool_decide.
  - rewrite securityMiddleware_servers; [done|].
    intros a0 r0 t. unfold official_txt. by case_bool_decide.
  - done.
Qed.

(** X7. The configuration the registry was created with is never changed
    by requests or sweeps, so the [/official.txt] endpoint answers every
    [GET] that passes the middleware (a source address that splits, within
    the rate limit) with 200 and the configured official list, whatever
    has been reported or swept, and leaves the registry as it is. *)
Theorem official_txt_constant cfg es r t_rl now ip p :
  Method r = "GET" →
  SplitHostPort (RemoteAddr r) = Some (ip, p) →
  (checkRateLimit (rateLimitMap (app_run ParseIP cfg es)) ip t_rl).1 = true →
  let out := securityMiddleware official_txt (app_run ParseIP cfg es) r t_rl now in
  SLConfig (servers (app_run ParseIP cfg es)) = cfg ∧
  out.2 = {| StatusCode := StatusOK; Body := Join (OfficialServers cfg) newline |} ∧
  servers out.1 = servers (app_run ParseIP cfg es).
Proof.
  intros Hget Hsplit.
  assert (SLConfig (servers (app_run ParseIP cfg es)) = cfg) as Hcfg.
  { induction es as [|e es IH] using rev_ind; [done|].
    by rewrite app_run_snoc, app_step_Config. }
  intros Hrate out. split; [done|]. subst out. unfold securityMiddleware. rewrite Hsplit.
  destruct (checkRateLimit _ ip t_rl) as [ok rl']. simpl in Hrate. subst ok.
  unfold official_txt. rewrite bool_decide_false by (by intros []).
  simpl. by rewrite Hcfg.
Qed.

(** X8. A registration that passes every check is acknowledged with 200
    and is listed by every snapshot taken up to the stale timeout after
    the instant of the report. *)
Theorem report_then_listed cfg a r t_rl now ip p form port now' :
  Method r = "POST" → UserAgent r = AllowedUserAgent cfg →
  ParseForm r = Some form → FormValue form "port" ≠ "" →
  Atoi (FormValue form "port") = Some port → 1024 <= port <= 65535 →
  SplitHostPort (RemoteAddr r) = Some (ip, p) →
  default false (Blacklist cfg !! ip) = false →
  is_Some (ParseIP ip) →
  (checkRateLimit (rateLimitMap a) ip t_rl).1 = true →
  0 <= StaleTimeout (SLConfig (servers a)) < 2 ^ 63 →
  now' <= now + StaleTimeout (SLConfig (servers a)) →
  let out := report_endpoint ParseIP cfg a r t_rl now in
  out.2 = WriteHeader StatusOK ∧
  Entries (servers out.1) !! host_port ip port = Some (time.Unix now) ∧
  host_port ip port ∈ GetActive (servers out.1) now'.
Proof.
  intros Hm Hua Hform Hne Hport Hrange Hsplit Hbl [bytes Hip] Hrate HT Hnow' out.
  assert (out = ({| servers := Report (servers a) ip port now;
                    rateLimitMap := (checkRateLimit (rateLimitMap a) ip t_rl).2 |},
                 WriteHeader StatusOK)) as ->.
  { unfold out, report_endpoint, securityMiddleware. rewrite Hsplit.
    destruct (checkRateLimit (rateLimitMap a) ip t_rl) as [ok rl'].
    simpl in Hrate. subst ok.
    rewrite otherwise_valid_report_php.
    - rewrite Hsplit, Hbl, Hip, Hform. simpl. by rewrite Hport.
    - split; [done|]. split; [done|]. by exists form, port. }
  simpl. split; [done|]. split; [apply lookup_insert_eq|].
  apply GetActive_elem_of. left. exists (time.Unix now).
  split; [apply lookup_insert_eq|]. simpl.
  rewrite cutoff_exact by lia. apply Unix_mono. lia.
Qed.

(** X9. The endpoint answers 200 only to a request that passed the method,
    identifier and port checks, came from an address that splits, was
    within the rate limit, and whose host is either blacklisted (the silent
    drop) or accepted by [ParseIP] (the registration). *)
Theorem report_endpoint_ok_only_if cfg a r t_rl now :
  StatusCode (report_endpoint ParseIP cfg a r t_rl now).2 = StatusOK →
  otherwise_valid cfg r ∧
  ∃ ip p,
    SplitHostPort (RemoteAddr r) = Some (ip, p) ∧
    (checkRateLimit (rateLimitMap a) ip t_rl).1 = true ∧
    (default false (Blacklist cfg !! ip) = true ∨ is_Some (ParseIP ip)).
Proof.
  unfold report_endpoint, securityMiddleware.
  destruct (SplitHostPort (RemoteAddr r)) as [[ip p]|] eqn:Hsplit;
    [|by intros [=]].
  destruct (checkRateLimit (rateLimitMap a) ip t_rl) as [[] rl'] eqn:Hrate;
    [|by intros [=]].
  unfold report_php. rewrite Hsplit.
  repeat (case_bool_decide || case_match); simpl; try by intros [=].
  all: intros _; split;
    [split; [done|]; split; [done|]; eexists _, _; split_and!; eauto; lia|].
  all: exists ip, p; split_and!; eauto; by rewrite Hrate.
Qed.
End EndpointProperties.

Lemma official_txt_constant_witness :
  let r := {| Method := "GET"; UserAgent := ""; RemoteAddr := "7.7.7.7:1";
              ParseForm := None |} in
  let a := app_run ParseIPv4 demo_cfg [HttpReport demo_request 0 0; Tick (600 * time.Second)] in
  Method r = "GET" ∧
  SplitHostPort (RemoteAddr r) = Some ("7.7.7.7", "1") ∧
  (checkRateLimit (rateLimitMap a) "7.7.7.7" 0).1 = true ∧
  Body (securityMiddleware official_txt a r 0 0).2 = "10.0.0.1:9000".
Proof.
  intros r a. split; [reflexivity|]. split; [reflexivity|].
  assert ((checkRateLimit (rateLimitMap a) "7.7.7.7" 0).1 = true) as Hrate
    by (by vm_compute).
  split; [exact Hrate|]. unfold a in *.
  destruct (official_txt_constant ParseIPv4 demo_cfg
              [HttpReport demo_request 0 0; Tick (600 * time.Second)] r 0 0
              "7.7.7.7" "1" eq_refl eq_refl Hrate) as (_ & -> & _).
  reflexivity.
Defined.

Lemma report_then_listed_witness :
  let out := report_endpoint ParseIPv4 demo_cfg (main_init demo_cfg) demo_request 0 0 in
  out.2 = WriteHeader StatusOK ∧
  Entries (servers out.1) !! host_port "1.2.3.4" 2301 = Some (time.Unix 0) ∧
  host_port "1.2.3.4" 2301 ∈ GetActive (servers out.1) (60 * time.Second).
Proof.
  apply (report_then_listed ParseIPv4 demo_cfg (main_init demo_cfg) demo_request
           0 0 "1.2.3.4" "50000" [("port", "2301")] 2301 (60 * time.Second));
    try reflexivity; try (by vm_compute); try (split; by vm_compute).
  by exists [1; 2; 3; 4].
Defined.

Lemma report_endpoint_ok_only_if_witness :
  StatusCode (report_endpoint ParseIPv4 demo_cfg (main_init demo_cfg)
                demo_request 0 0).2 = StatusOK ∧
  otherwise_valid demo_cfg demo_request.
Proof.
  split; [by vm_compute|].
  apply (report_endpoint_ok_only_if ParseIPv4 demo_cfg (main_init demo_cfg)
           demo_request 0 0).
  by vm_compute.
Defined.

(** ** More on [loadConfig] *)

Lemma len_pos (s : string) : len s > 0 ↔ s ≠ "".
Proof. unfold len. destruct s; simpl; split; intros; try done; lia. Qed.

Section LoadConfigMore.
Context (ParseIP : string → option (list Z))
        (Clean : string → string)
        (IsAbs : string → bool)
        (Dir : string → string)
        (Unmarshal : string → option jsonConfig)
        (MarshalIndent : jsonConfig → option string)
        (ParseDuration : string → option time.Duration)
        (TrimSpace : string → string).

Abbreviation from_json := (config_of_json ParseIP ParseDuration TrimSpace).
Abbreviation load_cfg :=
  (loadConfig ParseIP Clean IsAbs Dir Unmarshal MarshalIndent ParseDuration TrimSpace).

(** *** The two list loops *)

Lemma load_blacklist_cons raw ips bl :
  load_blacklist ParseIP TrimSpace (raw :: ips) bl =
  if bool_decide (TrimSpace raw = "") then load_blacklist ParseIP TrimSpace ips bl
  else
    match ParseIP (TrimSpace raw) with
    | None =>
        log_Printf ("Skipping invalid IP in blacklist: " +:+ TrimSpace raw);;
        load_blacklist ParseIP TrimSpace ips bl
    | Some _ => load_blacklist ParseIP TrimSpace ips (<[TrimSpace raw := true]> bl)
    end.
Proof. reflexivity. Qed.

Lemma load_official_cons raw addrs valid :
  load_official ParseIP TrimSpace (raw :: addrs) valid =
  if bool_decide (TrimSpace raw = "") then load_official ParseIP TrimSpace addrs valid
  else
    match ParseIP (official_host (TrimSpace raw)) with
    | None =>
        log_Printf "Skipping official server: not a valid IP";;
        load_official ParseIP TrimSpace addrs valid
    | Some _ => load_official ParseIP TrimSpace addrs (valid ++ [TrimSpace raw])
    end.
Proof. reflexivity. Qed.

Lemma load_blacklist_lookup ips bl (ip : string) :
  is_Some (result (load_blacklist ParseIP TrimSpace ips bl) !! ip) ↔
  is_Some (bl !! ip) ∨
  (ip ≠ "" ∧ is_Some (ParseIP ip) ∧ ip ∈ TrimSpace <$> ips).
Proof.
  revert bl. induction ips as [|raw ips IH]; intros bl.
  - rewrite fmap_nil, elem_of_nil. unfold result. simpl. tauto.
  - rewrite load_blacklist_cons, fmap_cons, elem_of_cons.
    case_bool_decide as Hempty.
    + rewrite IH. split; [tauto|].
      intros [?|(? & ? & [Heq|?])]; [tauto|congruence|tauto].
    + destruct (ParseIP (TrimSpace raw)) as [bytes|] eqn:Hparse.
      * rewrite IH, lookup_insert_is_Some'. split.
        -- intros [[Heq|?]|(? & ? & ?)]; eauto 6.
           right. rewrite <- Heq. eauto.
        -- intros [?|(? & ? & [Heq|?])]; eauto 6.
      * rewrite result_bind, IH. split; [tauto|].
        intros [?|(? & Hsome & [Heq|?])]; [tauto|destruct Hsome; congruence|tauto].
Qed.

Lemma load_blacklist_true ips bl :
  (∀ k v, bl !! k = Some v → v = true) →
  ∀ k v, result (load_blacklist ParseIP TrimSpace ips bl) !! k = Some v → v = true.
Proof.
  revert bl. induction ips as [|raw ips IH]; intros bl Hbl; [exact Hbl|].
  rewrite load_blacklist_cons. case_bool_decide; [by apply IH|].
  destruct (ParseIP (TrimSpace raw)).
  - apply IH. intros k v [[_ <-]|[_ ?]]%lookup_insert_Some; eauto.
  - rewrite result_bind. by apply IH.
Qed.

(** The official servers kept are the trimmed entries that are not empty
    and whose host [ParseIP] accepts, in their order. *)
Lemma load_official_result addrs valid :
  result (load_official ParseIP TrimSpace addrs valid) =
  valid ++ filter (λ addr, addr ≠ "" ∧ is_Some (ParseIP (official_host addr)))
             (TrimSpace <$> addrs).
Proof.
  revert valid. induction addrs as [|raw addrs IH]; intros valid.
  - unfold result. simpl. by rewrite app_nil_r.
  - rewrite load_official_cons, fmap_cons.
    case_bool_decide as Hempty.
    + rewrite IH, filter_cons_False; [done|]. by intros [? _].
    + destruct (ParseIP (official_host (TrimSpace raw))) as [bytes|] eqn:Hparse.
      * rewrite IH, filter_cons_True by eauto. by rewrite <- app_assoc.
      * rewrite result_bind, IH, filter_cons_False; [done|].
        rewrite Hparse. by intros [_ [? ?]].
Qed.

Lemma load_blacklist_quiet ips bl :
  Forall (λ e, is_write e = false ∧ is_read e = false ∧ is_Getenv e = false)
    (trace (load_blacklist ParseIP TrimSpace ips bl)).
Proof.
  revert bl. induction ips as [|raw ips IH]; intros bl; [constructor|].
  rewrite load_blacklist_cons. case_bool_decide; [apply IH|].
  destruct (ParseIP (TrimSpace raw)); [apply IH|].
  rewrite trace_bind. constructor; [done|apply IH].
Qed.

Lemma load_official_quiet addrs valid :
  Forall (λ e, is_write e = false ∧ is_read e = false ∧ is_Getenv e = false)
    (trace (load_official ParseIP TrimSpace addrs valid)).
Proof.
  revert valid. induction addrs as [|raw addrs IH]; intros valid; [constructor|].
  rewrite load_official_cons. case_bool_decide; [apply IH|].
  destruct (ParseIP _); [apply IH|].
  rewrite trace_bind. constructor; [done|apply IH].
Qed.

(** *** The overrides, one by one *)

Lemma env_Port_result os c :
  result (env_Port os c) =
  match Atoi (Getenv os "LUSD_PORT") with
  | Some p => if bool_decide (0 < p <= 65535) then with_Port c p else c
  | None => c
  end.
Proof.
  unfold env_Port. rewrite result_bind. simpl.
  case_bool_decide as Hne.
  - destruct (Atoi _); [|done].
    repeat case_bool_decide; try done; lia.
  - by rewrite Hne.
Qed.

Lemma env_UserAgent_result os c :
  result (env_UserAgent os c) =
  let ua := Getenv os "LUSD_USER_AGENT" in
  if bool_decide (ua ≠ "" ∧ len ua <= 100) then with_AllowedUserAgent c ua else c.
Proof.
  unfold env_UserAgent. rewrite result_bind. simpl.
  pose proof (len_pos (Getenv os "LUSD_USER_AGENT")).
  repeat case_bool_decide; try done; tauto.
Qed.

Lemma env_StaleTimeout_result os c :
  result (env_StaleTimeout ParseDuration os c) =
  let v := Getenv os "LUSD_STALE_TIMEOUT" in
  match ParseDuration v with
  | Some d => if bool_decide (v ≠ "" ∧ d > 0) then with_StaleTimeout c d else c
  | None => c
  end.
Proof.
  unfold env_StaleTimeout. rewrite result_bind. simpl.
  destruct (ParseDuration _); repeat case_bool_decide; try done; tauto.
Qed.

Lemma env_LogFile_result os c :
  result (env_LogFile os c) =
  let f := Getenv os "LUSD_LOG_FILE" in
  if bool_decide (f ≠ "" ∧ len f <= 255) && negb (Contains f "..")
  then with_LogFile c f else c.
Proof.
  unfold env_LogFile. rewrite result_bind. simpl.
  pose proof (len_pos (Getenv os "LUSD_LOG_FILE")).
  destruct (Contains _ ".."); repeat case_bool_decide; simpl; try done; tauto.
Qed.

Lemma env_LogEnabled_result os c :
  result (env_LogEnabled os c) =
  match ParseBool (Getenv os "LUSD_LOG_ENABLED") with
  | Some b => with_LogEnabled c b
  | None => c
  end.
Proof.
  unfold env_LogEnabled. rewrite result_bind. simpl.
  case_bool_decide as Hne.
  - by destruct (ParseBool _).
  - by rewrite Hne.
Qed.

Lemma env_quiet os c :
  Forall (λ e, is_write e = false ∧ is_read e = false) (trace (env_Port os c)) ∧
  Forall (λ e, is_write e = false ∧ is_read e = false) (trace (env_UserAgent os c)) ∧
  Forall (λ e, is_write e = false ∧ is_read e = false)
    (trace (env_StaleTimeout ParseDuration os c)) ∧
  Forall (λ e, is_write e = false ∧ is_read e = false) (trace (env_LogFile os c)) ∧
  Forall (λ e, is_write e = false ∧ is_read e = false) (trace (env_LogEnabled os c)).
Proof.
  unfold env_Port, env_UserAgent, env_StaleTimeout, env_LogFile, env_LogEnabled.
  rewrite !trace_bind. simpl.
  split_and!; repeat (case_bool_decide || case_match); simpl;
    repeat constructor.
Qed.
(** Each override returns its argument with at most its own field
    replaced. *)
Lemma env_results_shape os c :
  (∃ v, result (env_Port os c) = with_Port c v) ∧
  (∃ v, result (env_UserAgent os c) = with_AllowedUserAgent c v) ∧
  (∃ v, result (env_StaleTimeout ParseDuration os c) = with_StaleTimeout c v) ∧
  (∃ v, result (env_LogFile os c) = with_LogFile c v) ∧
  (∃ v, result (env_LogEnabled os c) = with_LogEnabled c v).
Proof.
  rewrite env_Port_result, env_UserAgent_result, env_StaleTimeout_result,
    env_LogFile_result, env_LogEnabled_result. cbv zeta.
  split_and!; repeat (case_bool_decide || case_match); eauto;
    destruct c; by eexists.
Qed.

(** The configuration built from the file, before the overrides. *)
Lemma from_json_result os j :
  ∃ base,
    result (from_json os j) =
      result (env_LogEnabled os (result (env_LogFile os
        (result (env_StaleTimeout ParseDuration os
          (result (env_UserAgent os (result (env_Port os base)))))))))
    ∧ Port base = (if bool_decide (1 <= jPort j <= 65535) then jPort j else 80)
    ∧ AllowedUserAgent base =
        (if bool_decide (jAllowedUserAgent j = "") then "LU-Server/0.1"
         else jAllowedUserAgent j)
    ∧ StaleTimeout base =
        default (10 * time.Minute) (ParseDuration (jStaleTimeout j))
    ∧ LogFile base =
        (if bool_decide (jLogFile j = "") then "lusd_server.log" else jLogFile j)
    ∧ LogEnabled base = jLogEnabled j
    ∧ Blacklist base = result (load_blacklist ParseIP TrimSpace (jBlacklist j) ∅)
    ∧ OfficialServers base =
        result (load_official ParseIP TrimSpace (jOfficialServers j) []).
Proof.
  unfold config_of_json. rewrite !result_bind. eexists. split; [reflexivity|].
  destruct (ParseDuration (jStaleTimeout j)); simpl;
    repeat case_bool_decide; simpl; split_and!; try done; lia.
Qed.

Lemma from_json_lists os j :
  Blacklist (result (from_json os j)) =
    result (load_blacklist ParseIP TrimSpace (jBlacklist j) ∅) ∧
  OfficialServers (result (from_json os j)) =
    result (load_official ParseIP TrimSpace (jOfficialServers j) []).
Proof.
  destruct (from_json_result os j) as (base & -> & _ & _ & _ & _ & _ & <- & <-).
  destruct (env_results_shape os base) as ([v1 ->] & _).
  destruct (env_results_shape os (with_Port base v1)) as (_ & [v2 ->] & _).
  destruct (env_results_shape os (with_AllowedUserAgent (with_Port base v1) v2))
    as (_ & _ & [v3 ->] & _).
  destruct (env_results_shape os
              (with_StaleTimeout (with_AllowedUserAgent (with_Port base v1) v2) v3))
    as (_ & _ & _ & [v4 ->] & _).
  destruct (env_results_shape os
              (with_LogFile (with_StaleTimeout
                 (with_AllowedUserAgent (with_Port base v1) v2) v3) v4))
    as (_ & _ & _ & _ & [v5 ->]).
  done.
Qed.

(** X10. The configuration built from a parsed file, field by field: an
    environment variable that passes its validation wins, otherwise the
    value of the file if it is valid, otherwise the default.  The port of
    the file must lie in [1, 65535]; the stale timeout of the file is taken
    as parsed, whatever its sign, while the one of the environment must be
    positive. *)
Theorem config_precedence os j :
  let c := result (from_json os j) in
  let env := Getenv os in
  Port c =
    (let file := if bool_decide (1 <= jPort j <= 65535) then jPort j else 80 in
     match Atoi (env "LUSD_PORT") with
     | Some p => if bool_decide (0 < p <= 65535) then p else file
     | None => file
     end) ∧
  AllowedUserAgent c =
    (let file := if bool_decide (jAllowedUserAgent j = "") then "LU-Server/0.1"
                 else jAllowedUserAgent j in
     if bool_decide (env "LUSD_USER_AGENT" ≠ "" ∧ len (env "LUSD_USER_AGENT") <= 100)
     then env "LUSD_USER_AGENT" else file) ∧
  StaleTimeout c =
    (let file := default (10 * time.Minute) (ParseDuration (jStaleTimeout j)) in
     match ParseDuration (env "LUSD_STALE_TIMEOUT") with
     | Some d => if bool_decide (env "LUSD_STALE_TIMEOUT" ≠ "" ∧ d > 0) then d else file
     | None => file
     end) ∧
  LogFile c =
    (let file := if bool_decide (jLogFile j = "") then "lusd_server.log"
                 else jLogFile j in
     if bool_decide (env "LUSD_LOG_FILE" ≠ "" ∧ len (env "LUSD_LOG_FILE") <= 255)
        && negb (Contains (env "LUSD_LOG_FILE") "..")
     then env "LUSD_LOG_FILE" else file) ∧
  LogEnabled c =
    match ParseBool (env "LUSD_LOG_ENABLED") with
    | Some b => b
    | None => jLogEnabled j
    end.
Proof.
  intros c env. subst c env.
  destruct (from_json_result os j)
    as (base & -> & <- & <- & <- & <- & <- & _ & _).
  pose proof (env_Port_result os base) as H1.
  destruct (env_results_shape os base) as ([v1 E1] & _).
  rewrite E1 in H1 |- *.
  pose proof (env_UserAgent_result os (with_Port base v1)) as H2.
  destruct (env_results_shape os (with_Port base v1)) as (_ & [v2 E2] & _).
  rewrite E2 in H2 |- *.
  set (c2 := with_AllowedUserAgent (with_Port base v1) v2) in *.
  pose proof (env_StaleTimeout_result os c2) as H3.
  destruct (env_results_shape os c2) as (_ & _ & [v3 E3] & _).
  rewrite E3 in H3 |- *.
  set (c3 := with_StaleTimeout c2 v3) in *.
  pose proof (env_LogFile_result os c3) as H4.
  destruct (env_results_shape os c3) as (_ & _ & _ & [v4 E4] & _).
  rewrite E4 in H4 |- *.
  set (c4 := with_LogFile c3 v4) in *.
  pose proof (env_LogEnabled_result os c4) as H5.
  destruct (env_results_shape os c4) as (_ & _ & _ & _ & [v5 E5]).
  rewrite E5 in H5 |- *.
  subst c4 c3 c2. cbv zeta in *. simpl.
  split_and!.
  - clear -H1. apply (f_equal Port) in H1. simpl in H1. rewrite H1.
    destruct (Atoi _); [|done]. by destruct (bool_decide _).
  - clear -H2. apply (f_equal AllowedUserAgent) in H2. simpl in H2. rewrite H2.
    by destruct (bool_decide _).
  - clear -H3. apply (f_equal StaleTimeout) in H3. simpl in H3. rewrite H3.
    destruct (ParseDuration (Getenv os _)); [|done]. by destruct (bool_decide _).
  - clear -H4. apply (f_equal LogFile) in H4. simpl in H4. rewrite H4.
    by destruct (_ && _).
  - clear -H5. apply (f_equal LogEnabled) in H5. simpl in H5. rewrite H5.
    by destruct (ParseBool _).
Qed.
(** X11. The lists built from a parsed file.  The official servers are
    the trimmed entries of the file that are not empty and whose host (the
    part before the port if the entry splits, the whole entry otherwise)
    [ParseIP] accepts, in the order of the file and with its repetitions;
    the blacklist maps exactly the trimmed, non-empty entries that
    [ParseIP] accepts to [true]. *)
Theorem config_lists os j :
  let c := result (from_json os j) in
  OfficialServers c =
    filter (λ addr, addr ≠ "" ∧ is_Some (ParseIP (official_host addr)))
      (TrimSpace <$> jOfficialServers j) ∧
  ∀ ip, Blacklist c !! ip =
        if bool_decide (ip ≠ "" ∧ is_Some (ParseIP ip) ∧
                        ip ∈ TrimSpace <$> jBlacklist j)
        then Some true else None.
Proof.
  intros c. subst c. destruct (from_json_lists os j) as [-> ->].
  split; [by rewrite load_official_result|].
  intros ip.
  pose proof (load_blacklist_lookup (jBlacklist j) ∅ ip) as Hiff.
  rewrite lookup_empty in Hiff.
  case_bool_decide as Hkeep.
  - destruct Hiff as [_ [b Hb]]; [by right|]. rewrite Hb. f_equal.
    eapply load_blacklist_true; [|exact Hb]. intros k v. by rewrite lookup_empty.
  - apply eq_None_not_Some. intros [[? ?]|?]%Hiff; [done|].
    by destruct Hkeep.
Qed.

Lemma loadConfig_result_cases os path :
  result (load_cfg os path) = defaultCfg ∨
  ∃ j, result (load_cfg os path) = result (from_json os j).
Proof.
  unfold loadConfig. destruct (Contains _ ".."); [by left|].
  rewrite result_bind. simpl. destruct (Stat os _).
  2: { left. apply create_default_config_result. }
  all: rewrite result_bind; destruct (result (secureReadFile _ _ _ _ _));
    [|by left]; destruct (Unmarshal _); [right; by eexists|by left].
Qed.

(** X12. Whatever the file system and the environment hold, [loadConfig]
    returns a configuration with a port in [1, 65535], a non-empty
    identifier and a non-empty log file name, whose blacklist maps only
    non-empty texts accepted by [ParseIP], each to [true], and whose
    official servers are non-empty with a host accepted by [ParseIP]. *)
Theorem loadConfig_well_formed os path :
  let c := result (load_cfg os path) in
  1 <= Port c <= 65535 ∧
  AllowedUserAgent c ≠ "" ∧
  LogFile c ≠ "" ∧
  (∀ ip b, Blacklist c !! ip = Some b →
           b = true ∧ ip ≠ "" ∧ is_Some (ParseIP ip)) ∧
  Forall (λ addr, addr ≠ "" ∧ is_Some (ParseIP (official_host addr)))
    (OfficialServers c).
Proof.
  intros c. subst c.
  destruct (loadConfig_result_cases os path) as [->|[j ->]].
  { by split_and!. }
  destruct (from_json_lists os j) as [Hbl Hoff]. rewrite Hbl, Hoff.
  split; [|split; [|split; [|split]]].
  - destruct (from_json_result os j) as (base & -> & Hport & _).
    destruct (env_results_shape os base) as ([v1 E1] & _).
    pose proof (env_Port_result os base) as H1. rewrite E1 in H1 |- *.
    destruct (env_results_shape os (with_Port base v1)) as (_ & [v2 ->] & _).
    destruct (env_results_shape os (with_AllowedUserAgent (with_Port base v1) v2))
      as (_ & _ & [v3 ->] & _).
    destruct (env_results_shape os
                (with_StaleTimeout (with_AllowedUserAgent (with_Port base v1) v2) v3))
      as (_ & _ & _ & [v4 ->] & _).
    destruct (env_results_shape os
                (with_LogFile (with_StaleTimeout
                   (with_AllowedUserAgent (with_Port base v1) v2) v3) v4))
      as (_ & _ & _ & _ & [v5 ->]).
    simpl. apply (f_equal Port) in H1. simpl in H1. rewrite H1.
    assert (1 <= Port base <= 65535) as Hbase
      by (rewrite Hport; destruct (bool_decide_reflect (1 <= jPort j <= 65535));
          lia).
    clear -Hbase. destruct (Atoi _) as [p|]; [case_bool_decide|]; simpl; lia.
  - destruct (from_json_result os j) as (base & -> & _ & Hua & _).
    destruct (env_results_shape os base) as ([v1 ->] & _).
    pose proof (env_UserAgent_result os (with_Port base v1)) as H2.
    destruct (env_results_shape os (with_Port base v1)) as (_ & [v2 E2] & _).
    rewrite E2 in H2 |- *.
    destruct (env_results_shape os (with_AllowedUserAgent (with_Port base v1) v2))
      as (_ & _ & [v3 ->] & _).
    destruct (env_results_shape os
                (with_StaleTimeout (with_AllowedUserAgent (with_Port base v1) v2) v3))
      as (_ & _ & _ & [v4 ->] & _).
    destruct (env_results_shape os
                (with_LogFile (with_StaleTimeout
                   (with_AllowedUserAgent (with_Port base v1) v2) v3) v4))
      as (_ & _ & _ & _ & [v5 ->]).
    simpl. apply (f_equal AllowedUserAgent) in H2. simpl in H2. cbv zeta in H2.
    rewrite H2.
    assert (AllowedUserAgent base ≠ "") as Hbase
      by (rewrite Hua; destruct (bool_decide_reflect (jAllowedUserAgent j = ""));
          done).
    clear -Hbase. case_bool_decide as Henv; simpl; [tauto|done].
  - destruct (from_json_result os j) as (base & -> & _ & _ & _ & Hlf & _).
    destruct (env_results_shape os base) as ([v1 ->] & _).
    destruct (env_results_shape os (with_Port base v1)) as (_ & [v2 ->] & _).
    destruct (env_results_shape os (with_AllowedUserAgent (with_Port base v1) v2))
      as (_ & _ & [v3 ->] & _).
    set (c3 := with_StaleTimeout (with_AllowedUserAgent (with_Port base v1) v2) v3).
    pose proof (env_LogFile_result os c3) as H4.
    destruct (env_results_shape os c3) as (_ & _ & _ & [v4 E4] & _).
    rewrite E4 in H4 |- *.
    destruct (env_results_shape os (with_LogFile c3 v4)) as (_ & _ & _ & _ & [v5 ->]).
    simpl. apply (f_equal LogFile) in H4. simpl in H4. cbv zeta in H4.
    rewrite H4.
    assert (LogFile base ≠ "") as Hbase
      by (rewrite Hlf; destruct (bool_decide_reflect (jLogFile j = "")); done).
    clear -Hbase.
    case_bool_decide as Henv; simpl; [destruct (Contains _ _); simpl|];
      try done; tauto.
  - intros ip b Hb. split; [|].
    + eapply load_blacklist_true; [|exact Hb]. intros k v. by rewrite lookup_empty.
    + pose proof (load_blacklist_lookup (jBlacklist j) ∅ ip) as Hiff.
      rewrite lookup_empty in Hiff.
      destruct Hiff as [[[]|(? & ? & _)] _]; [by eexists|done..].
  - rewrite load_official_result. simpl. apply Forall_forall.
    by intros addr [? _]%list_elem_of_filter.
Qed.
(** *** What [loadConfig] does to the file system *)

Lemma from_json_quiet os j :
  Forall (λ e, is_write e = false ∧ is_read e = false) (trace (from_json os j)).
Proof.
  unfold config_of_json. rewrite !trace_bind.
  repeat (apply Forall_app; split);
    try (by (eapply Forall_impl; [apply load_blacklist_quiet|simpl; tauto]));
    try (by (eapply Forall_impl; [apply load_official_quiet|simpl; tauto]));
    try apply env_quiet;
    try (destruct (ParseDuration (jStaleTimeout j)));
    try case_bool_decide; simpl; repeat constructor.
Qed.

Lemma secureReadFile_trace os path maxSize e :
  e ∈ trace (secureReadFile Clean IsAbs os path maxSize) →
  is_write e = false ∧
  (is_read e = true →
   Clean path = path ∧ e = EReadFile path ∧
   ∃ size, Stat os path = StatInfo size ∧ size <= maxSize).
Proof.
  unfold secureReadFile.
  case_bool_decide as Hclean; [by intros ?%elem_of_nil|].
  rewrite Hclean.
  destruct (IsAbs path && Contains path ".."); [by intros ?%elem_of_nil|].
  rewrite trace_bind. simpl.
  destruct (Stat os path) as [size| |] eqn:Hstat; simpl.
  - case_bool_decide as Hsize; simpl.
    + intros [->|?%elem_of_nil]%elem_of_cons; done.
    + intros [->|[->|?%elem_of_nil]%elem_of_cons]%elem_of_cons; [done| |done].
      split; [done|]. intros _. split_and!; [done..|]. exists size. split; [done|lia].
  - intros [->|?%elem_of_nil]%elem_of_cons; done.
  - intros [->|?%elem_of_nil]%elem_of_cons; done.
Qed.

Lemma secureWriteFile_trace os path data perm e :
  e ∈ trace (secureWriteFile Clean Dir os path data perm) →
  is_read e = false ∧
  (is_write e = true →
   Clean path = path ∧ Contains path ".." = false ∧
   (e = EMkdirAll (Dir path) 493 ∨ e = EWriteFile path data perm)).
Proof.
  unfold secureWriteFile.
  case_bool_decide as Hclean; [by intros ?%elem_of_nil|].
  rewrite Hclean.
  destruct (Contains path "..") eqn:Hdots; [by intros ?%elem_of_nil|].
  rewrite trace_bind. simpl.
  destruct (MkdirAll os (Dir path) 493); simpl.
  - intros [->|[->|?%elem_of_nil]%elem_of_cons]%elem_of_cons; [| |done];
      (split; [done|]); intros _; split_and!; auto.
  - intros [->|?%elem_of_nil]%elem_of_cons; [|done].
    split; [done|]. intros _. split_and!; auto.
Qed.

Lemma create_default_config_trace os path e :
  e ∈ trace (create_default_config Clean Dir MarshalIndent os path) →
  is_read e = false ∧
  (is_write e = true →
   Clean path = path ∧ Contains path ".." = false ∧
   (e = EMkdirAll (Dir path) 493 ∨ ∃ data, e = EWriteFile path data configFileMode)).
Proof.
  unfold create_default_config. rewrite trace_bind. simpl.
  intros [->|Hin]%elem_of_cons; [done|].
  destruct (MarshalIndent _) as [data|].
  - rewrite trace_bind in Hin.
    apply elem_of_app in Hin as [Hin|Hin].
    + apply secureWriteFile_trace in Hin as [? Hw]. split; [done|].
      intros (? & ? & [->| ->])%Hw; split_and!; eauto.
    + destruct (result _); apply list_elem_of_singleton in Hin as ->; done.
  - apply list_elem_of_singleton in Hin as ->. done.
Qed.

(** X13. [loadConfig] writes to the file system only when the config file
    does not exist, and then nothing but the config file itself (at its
    cleaned path, which holds no [..]) with mode 0600, after creating its
    directory with mode 0755.  An existing file is never overwritten. *)
Theorem loadConfig_writes os path e :
  e ∈ trace (load_cfg os path) → is_write e = true →
  Stat os (Clean path) = StatNotExist ∧
  Contains (Clean path) ".." = false ∧
  (e = EMkdirAll (Dir (Clean path)) 493 ∨
   ∃ data, e = EWriteFile (Clean path) data 384).
Proof.
  unfold loadConfig.
  destruct (Contains (Clean path) "..") eqn:Hdots.
  { by intros ->%list_elem_of_singleton. }
  rewrite trace_bind. simpl.
  intros [->|Hin]%elem_of_cons Hw; [done|].
  destruct (Stat os (Clean path)) eqn:Hstat.
  2: { apply create_default_config_trace in Hin as [_ Hin].
       destruct (Hin Hw) as (_ & _ & ?). done. }
  all: exfalso; rewrite trace_bind in Hin;
    apply elem_of_app in Hin as [Hin|Hin];
    [apply secureReadFile_trace in Hin as [? _]; congruence|].
  all: destruct (result (secureReadFile _ _ _ _ _));
    [destruct (Unmarshal _)|];
    [pose proof (from_json_quiet os j) as Hq; rewrite Forall_forall in Hq;
     destruct (Hq e Hin); congruence
    |apply list_elem_of_singleton in Hin as ->; done
    |apply list_elem_of_singleton in Hin as ->; done].
Qed.

(** X14. The only file [loadConfig] reads is the config file at its
    cleaned path, and only after [os.Stat] reported a size of at most
    [maxConfigFileSize] (32 MiB): a larger file is never read. *)
Theorem loadConfig_reads os path e :
  e ∈ trace (load_cfg os path) → is_read e = true →
  e = EReadFile (Clean path) ∧
  ∃ size, Stat os (Clean path) = StatInfo size ∧ size <= 1024 * 1024 * 32.
Proof.
  unfold loadConfig.
  destruct (Contains (Clean path) "..") eqn:Hdots.
  { by intros ->%list_elem_of_singleton. }
  rewrite trace_bind. simpl.
  intros [->|Hin]%elem_of_cons Hr; [done|].
  destruct (Stat os (Clean path)) eqn:Hstat.
  2: { apply create_default_config_trace in Hin as [? _]. congruence. }
  all: rewrite trace_bind in Hin; apply elem_of_app in Hin as [Hin|Hin];
    [apply secureReadFile_trace in Hin as [_ Hin];
     destruct (Hin Hr) as (_ & -> & size' & Hsize & ?);
     split; [done|]; exists size'; split; [congruence|done]|].
  all: exfalso; destruct (result (secureReadFile _ _ _ _ _));
    [destruct (Unmarshal _)|];
    [pose proof (from_json_quiet os j) as Hq; rewrite Forall_forall in Hq;
     destruct (Hq e Hin); congruence
    |apply list_elem_of_singleton in Hin as ->; done
    |apply list_elem_of_singleton in Hin as ->; done].
Qed.
End LoadConfigMore.

Lemma loadConfig_well_formed_witness :
  let c := result (loadConfig ParseIPv4 demo_Clean demo_IsAbs demo_Dir demo_Unmarshal
                     demo_MarshalIndent demo_ParseDuration demo_TrimSpace
                     demo_os "config.json") in
  Port c = 8080 ∧ 1 <= Port c <= 65535 ∧ AllowedUserAgent c ≠ "".
Proof.
  intros c. split; [by vm_compute|].
  pose proof (loadConfig_well_formed ParseIPv4 demo_Clean demo_IsAbs demo_Dir
                demo_Unmarshal demo_MarshalIndent demo_ParseDuration
                demo_TrimSpace demo_os "config.json") as (Hport & Hua & _).
  split; [exact Hport|exact Hua].
Defined.

Lemma loadConfig_writes_witness :
  let tr := trace (loadConfig ParseIPv4 demo_Clean demo_IsAbs demo_Dir demo_Unmarshal
                     demo_MarshalIndent demo_ParseDuration demo_TrimSpace
                     empty_os "config.json") in
  EWriteFile "config.json" "{}" 384 ∈ tr ∧
  Stat empty_os (demo_Clean "config.json") = StatNotExist.
Proof.
  intros tr.
  assert (EWriteFile "config.json" "{}" 384 ∈ tr) as Hin.
  { vm_compute. repeat (apply list_elem_of_here || apply list_elem_of_further). }
  split; [exact Hin|].
  apply (loadConfig_writes ParseIPv4 demo_Clean demo_IsAbs demo_Dir demo_Unmarshal
           demo_MarshalIndent demo_ParseDuration demo_TrimSpace
           empty_os "config.json" _ Hin).
  reflexivity.
Defined.

Lemma loadConfig_reads_witness :
  let tr := trace (loadConfig ParseIPv4 demo_Clean demo_IsAbs demo_Dir demo_Unmarshal
                     demo_MarshalIndent demo_ParseDuration demo_TrimSpace
                     demo_os "config.json") in
  EReadFile "config.json" ∈ tr ∧
  ∃ size, Stat demo_os (demo_Clean "config.json") = StatInfo size ∧
          size <= 1024 * 1024 * 32.
Proof.
  intros tr.
  assert (EReadFile "config.json" ∈ tr) as Hin.
  { vm_compute. repeat (apply list_elem_of_here || apply list_elem_of_further). }
  split; [exact Hin|].
  apply (loadConfig_reads ParseIPv4 demo_Clean demo_IsAbs demo_Dir demo_Unmarshal
           demo_MarshalIndent demo_ParseDuration demo_TrimSpace
           demo_os "config.json" _ Hin).
  reflexivity.
Defined.
